(** * fqfilter: a shallow embedding of [fqfilter.go] and its properties

    The program filters one or more FASTQ files, read in lockstep, by a list
    of read names.  This development embeds the three phases of [main]:

    - [Startup]: argument validation and the opening of inputs, outputs and
      the name list (lines 143-200 of [fqfilter.go]);
    - [NameIndex]: the loop that fills the [filter] map (lines 202-210);
    - [Engine]: the synchronized filter loop (lines 212-291).

    Beside them: [Ambi], [AmbiReader] and [AmbiWriter] give the two stream
    types at the level of their struct fields (lines 43-140); [Main] puts the
    three phases together, with the deferred [Close] calls (lines 142-297);
    [Lockstep] and [Outputs] hold the predicates used to state what each exit
    of the loop means and what each sink receives.

    Conventions.  A [bufio.Scanner] is modelled by the list of tokens it
    still has to deliver: [Scan] fails on the empty list.  A Go [string] is a
    [string] of bytes.  The Go [int] counters are 64-bit two's complement
    integers, modelled in [Z] with the wrap-around written out ([int_wrap]).
    Output is an append-only log of [(handle, text)] pairs, so that sinks shared
    by several streams (all of them write to standard output when no prefix
    is given) keep the interleaving the program produces. *)

From Stdlib Require Import ZArith Lia Ascii String.
From stdpp Require Import base list strings gmap pretty.

Local Open Scope Z_scope.

(** ** Go runtime helpers *)

Module GoStrings.

(** [asciiSpace] of package [strings]: tab, newline, vertical tab, form
    feed, carriage return and space.  [strings.Fields] uses this table on
    strings of ASCII bytes; the model covers those. *)
Definition asciiSpace (c : ascii) : bool :=
  match N_of_ascii c with
  | 9%N | 10%N | 11%N | 12%N | 13%N | 32%N => true
  | _ => false
  end.

(** [fields_from cur s]: [cur] is the field being read, reversed. *)
Fixpoint fields_from (cur : string) (s : string) : list string :=
  match s with
  | EmptyString =>
      match cur with EmptyString => [] | _ => [String.rev cur] end
  | String c s' =>
      if asciiSpace c then
        match cur with
        | EmptyString => fields_from "" s'
        | _ => String.rev cur :: fields_from "" s'
        end
      else fields_from (String c cur) s'
  end.

(** [strings.Fields] *)
Definition Fields (s : string) : list string := fields_from "" s.

(** [strings.HasPrefix] *)
Definition HasPrefix (s p : string) : bool := String.prefix p s.

(** [strings.HasSuffix] *)
Definition HasSuffix (s p : string) : bool :=
  String.prefix (String.rev p) (String.rev s).

(** [s[1:len(s)]]; slicing the empty string panics ([None]). *)
Definition slice_from_1 (s : string) : option string :=
  match s with
  | EmptyString => None
  | String _ s' => Some s'
  end.

(** The strings ["\t"] and ["\n"]. *)
Definition tab : string := String "009" "".
Definition newline : string := String "010" "".

(** 64-bit [int]: values live in [-2^63, 2^63). *)
Definition int_wrap (z : Z) : Z := (z + 2 ^ 63) mod 2 ^ 64 - 2 ^ 63.

(** [x++] on an [int] *)
Definition int_incr (z : Z) : Z := int_wrap (z + 1).

End GoStrings.
Import GoStrings.

(** ** Command-line arguments (type [Args]) *)

Record Args := mkArgs {
  Invert : bool;
  ReadsFilename : string;
  OutPrefix : string;
  Limit : Z;
  Tab : bool;
  ShortName : bool
}.

(** Flag defaults installed by [init]. *)
Definition default_args : Args :=
  {| Invert := false; ReadsFilename := ""; OutPrefix := ""; Limit := 0;
     Tab := false; ShortName := false |}.

(** A value computed by Go code that may panic at run time (here: an index
    out of range). *)
Inductive checked (A : Type) : Type :=
| Value (a : A)
| Panics.
Arguments Value {A} a.
Arguments Panics {A}.

(** [strings.Fields(name)[0]] *)
Definition first_field (name : string) : checked string :=
  match Fields name with
  | [] => Panics
  | f :: _ => Value f
  end.

(** ** Name Index: lines 202-210 *)

Module NameIndex.

(** One turn of [for scanner.Scan() { ... }]. *)
Definition add_name (short : bool) (line : string) (filter : gmap string bool)
  : checked (gmap string bool) :=
  if short then
    match first_field line with
    | Panics => Panics
    | Value name => Value (<[name := true]> filter)
    end
  else Value (<[line := true]> filter).

(** The loop over the tokens of the name-list scanner. *)
Fixpoint scan_names (short : bool) (lines : list string) (filter : gmap string bool)
  : checked (gmap string bool) :=
  match lines with
  | [] => Value filter
  | line :: rest =>
      match add_name short line filter with
      | Panics => Panics
      | Value filter' => scan_names short rest filter'
      end
  end.

(** [filter := make(map[string]bool)] followed by the loop. *)
Definition build (short : bool) (lines : list string) : checked (gmap string bool) :=
  scan_names short lines ∅.

(** The identifier a line of the name list stands for. *)
Definition identifier (short : bool) (line : string) : checked string :=
  if short then first_field line else Value line.

(** [_, ok := filter[name]] *)
Definition member (filter : gmap string bool) (name : string) : bool :=
  match filter !! name with
  | Some _ => true
  | None => false
  end.

End NameIndex.

(** ** Startup: lines 143-200 *)

Module Startup.

(** What a reader or writer is bound to once opened. *)
Inductive handle :=
| StdStream                      (* os.Stdin or os.Stdout *)
| PlainFile (fn : string)
| GzipFile (fn : string).

(** System calls and fatal diagnostics, in program order. *)
Inductive fatal :=
| MustProvideReads
| MustSpecifyFastq
| FailedToOpen (fn : string)
| TabOnlyStdout
| FailedToOpenForWriting (fn : string).

Inductive event :=
| OsOpen (fn : string)           (* os.Open(fn) *)
| OsCreate (fn : string)         (* os.Create(fn) *)
| UseStdin
| UseStdout
| LogFatal (msg : fatal).

(** The file system as the program sees it. *)
Record FS := mkFS {
  can_open : string -> bool;     (* os.Open succeeds *)
  gzip_ok : string -> bool;      (* gzip.NewReader accepts the header *)
  can_create : string -> bool    (* os.Create succeeds *)
}.

(** [AmbiReader.Open] on a fresh reader. *)
Definition AmbiReader_Open (fs : FS) (fn : string) : list event * option handle :=
  if String.eqb fn "" then ([UseStdin], Some StdStream)
  else if can_open fs fn then
    if HasSuffix fn ".gz" then
      if gzip_ok fs fn then ([OsOpen fn], Some (GzipFile fn))
      else ([OsOpen fn], None)
    else ([OsOpen fn], Some (PlainFile fn))
  else ([OsOpen fn], None).

(** [AmbiWriter.Open] on a fresh writer. *)
Definition AmbiWriter_Open (fs : FS) (fn : string) : list event * option handle :=
  if String.eqb fn "" then ([UseStdout], Some StdStream)
  else if can_create fs fn then
    if HasSuffix fn ".gz" then ([OsCreate fn], Some (GzipFile fn))
    else ([OsCreate fn], Some (PlainFile fn))
  else ([OsCreate fn], None).

(** Name of output [i] (0-based) under a prefix. *)
Definition output_name (prefix : string) (nfq i : nat) : string :=
  if (nfq =? 1)%nat then prefix +:+ ".fq.gz"
  else prefix +:+ "_" +:+ pretty (i + 1)%nat +:+ ".fq.gz".

(** Outcome of a phase: the handles, or the fatal message that ended the
    process. *)
Inductive phase (A : Type) :=
| Ready (a : A)
| Fatal (msg : fatal).
Arguments Ready {A} a.
Arguments Fatal {A} msg.

(** [for i, fn := range fq { inputs[i].Open(fn) ... }] *)
Fixpoint open_inputs (fs : FS) (fq : list string) : list event * phase (list handle) :=
  match fq with
  | [] => ([], Ready [])
  | fn :: rest =>
      match AmbiReader_Open fs fn with
      | (ev, None) => (ev ++ [LogFatal (FailedToOpen fn)], Fatal (FailedToOpen fn))
      | (ev, Some h) =>
          match open_inputs fs rest with
          | (evs, Ready hs) => (ev ++ evs, Ready (h :: hs))
          | (evs, Fatal m) => (ev ++ evs, Fatal m)
          end
      end
  end.

(** [for i := 0; i < len(fq); i++ { ... }] of the output branch; [n] counts
    the outputs still to prepare. *)
Fixpoint open_outputs (fs : FS) (prefix : string) (nfq : nat) (n i : nat)
  : list event * phase (list handle) :=
  match n with
  | O => ([], Ready [])
  | S n' =>
      if String.eqb prefix "" then
        match open_outputs fs prefix nfq n' (S i) with
        | (evs, Ready hs) => (UseStdout :: evs, Ready (StdStream :: hs))
        | (evs, Fatal m) => (UseStdout :: evs, Fatal m)
        end
      else
        let fn := output_name prefix nfq i in
        match AmbiWriter_Open fs fn with
        | (ev, None) =>
            (ev ++ [LogFatal (FailedToOpenForWriting fn)],
             Fatal (FailedToOpenForWriting fn))
        | (ev, Some h) =>
            match open_outputs fs prefix nfq n' (S i) with
            | (evs, Ready hs) => (ev ++ evs, Ready (h :: hs))
            | (evs, Fatal m) => (ev ++ evs, Fatal m)
            end
        end
  end.

(** Lines 192-199: the reader of the name list. *)
Definition readsFn (args : Args) : string :=
  if String.eqb (ReadsFilename args) "stdin" then "" else ReadsFilename args.

Definition open_reads (fs : FS) (args : Args) : list event * phase handle :=
  match AmbiReader_Open fs (readsFn args) with
  | (ev, None) =>
      (ev ++ [LogFatal (FailedToOpen (ReadsFilename args))],
       Fatal (FailedToOpen (ReadsFilename args)))
  | (ev, Some h) => (ev, Ready h)
  end.

Record handles := mkHandles {
  inputs : list handle;
  outputs : list handle;
  reads : handle
}.

(** [main] up to the point where the name list is open. *)
Definition startup (fs : FS) (args : Args) (fq : list string)
  : list event * phase handles :=
  if String.eqb (ReadsFilename args) "" then
    ([LogFatal MustProvideReads], Fatal MustProvideReads)
  else if (length fq =? 0)%nat then
    ([LogFatal MustSpecifyFastq], Fatal MustSpecifyFastq)
  else
    match open_inputs fs fq with
    | (ev1, Fatal m) => (ev1, Fatal m)
    | (ev1, Ready ins) =>
        let '(ev2, outs) :=
          if Tab args then
            if negb (String.eqb (OutPrefix args) "") then
              ([LogFatal TabOnlyStdout], Fatal TabOnlyStdout)
            else ([], Ready [])
          else open_outputs fs (OutPrefix args) (length fq) (length fq) 0
        in
        match outs with
        | Fatal m => (ev1 ++ ev2, Fatal m)
        | Ready outs =>
            match open_reads fs args with
            | (ev3, Fatal m) => (ev1 ++ ev2 ++ ev3, Fatal m)
            | (ev3, Ready rd) =>
                (ev1 ++ ev2 ++ ev3,
                 Ready {| inputs := ins; outputs := outs; reads := rd |})
            end
        end
    end.

(** The errors of the configuration itself, as opposed to the resource
    errors [FailedToOpen] and [FailedToOpenForWriting]. *)
Definition is_config_error (m : fatal) : bool :=
  match m with
  | MustProvideReads | MustSpecifyFastq | TabOnlyStdout => true
  | _ => false
  end.

(** An event that opens (or binds) an input or output stream. *)
Definition opens_stream (e : event) : bool :=
  match e with
  | OsOpen _ | OsCreate _ | UseStdin | UseStdout => true
  | LogFatal _ => false
  end.

Definition opens_output (e : event) : bool :=
  match e with
  | OsCreate _ | UseStdout => true
  | _ => false
  end.

(** The error taxonomy as the specification words it: whenever startup
    ends in a configuration error, no stream has been opened. *)
Definition config_errors_precede_opens : Prop :=
  forall fs args fq evs m,
    startup fs args fq = (evs, Fatal m) ->
    is_config_error m = true ->
    Forall (fun e => opens_stream e = false) evs.

End Startup.

(** ** Synchronized filter engine: lines 212-291 *)

Module Engine.

Import Startup.

(** The errors the loop function returns. *)
Inductive error :=
| HeaderExpected (line_num : Z) (line : string)
    (* "Line %d should be a header line, got: %s" *)
| WriteFailed (line_num : Z) (i : nat)
    (* "Failed to write line %d to output %d: %v" *)
| ScannerExpected (i : nat).
    (* "Expecting scanner %d to be able to scan" *)

(** How the loop function is left. *)
Inductive exit :=
| ReturnNil
| ReturnErr (e : error)
| IndexPanic.

(** The variables the loop function closes over, and the output log. *)
Record state := mkState {
  inputScanners : list (list string);
  line_num : Z;
  included : Z;
  excluded : Z;
  enable : bool;
  name : string;
  sequences : list string;
  written : list (handle * string)
}.

Inductive flow :=
| Next (st : state)
| Stop (x : exit) (st : state).

Definition set_inputScanners (v : list (list string)) (st : state) : state :=
  mkState v (line_num st) (included st) (excluded st) (enable st) (name st)
          (sequences st) (written st).
Definition set_line_num (v : Z) (st : state) : state :=
  mkState (inputScanners st) v (included st) (excluded st) (enable st) (name st)
          (sequences st) (written st).
Definition set_included (v : Z) (st : state) : state :=
  mkState (inputScanners st) (line_num st) v (excluded st) (enable st) (name st)
          (sequences st) (written st).
Definition set_excluded (v : Z) (st : state) : state :=
  mkState (inputScanners st) (line_num st) (included st) v (enable st) (name st)
          (sequences st) (written st).
Definition set_decision (nm : string) (en : bool) (st : state) : state :=
  mkState (inputScanners st) (line_num st) (included st) (excluded st) en nm
          (sequences st) (written st).
Definition set_sequences (v : list string) (st : state) : state :=
  mkState (inputScanners st) (line_num st) (included st) (excluded st) (enable st)
          (name st) v (written st).
Definition write (h : handle) (text : string) (st : state) : state :=
  mkState (inputScanners st) (line_num st) (included st) (excluded st) (enable st)
          (name st) (sequences st) (written st ++ [(h, text)]).

(** [len(fq)]: every slice of the loop is made with this length. *)
Definition len_fq (st : state) : nat := length (inputScanners st).

(** The state at line 231, for the given scanner contents. *)
Definition init (invert : bool) (streams : list (list string)) : state :=
  {| inputScanners := streams;
     line_num := 0; included := 0; excluded := 0;
     enable := if invert then true else false;
     name := "";
     sequences := replicate (length streams) "";
     written := [] |}.

(** [outputLine := name; for j ... { outputLine = outputLine + TAB + sequences[j] }] *)
Definition tab_line (name : string) (sequences : list string) : string :=
  fold_left (fun outputLine s => outputLine +:+ tab +:+ s) sequences name.

Section Loop.

Variable args : Args.
Variable filter : gmap string bool.
(** [outputs] as prepared by lines 163-189. *)
Variable outputs : list handle.
(** [wr_ok k]: the [io.WriteString] call made after [k] successful ones
    succeeds. *)
Variable wr_ok : nat -> bool.

(** Lines 236-251. *)
Definition on_header (i : nat) (line : string) (st : state) : flow :=
  if Z.rem (line_num st) 4 =? 0 then
    if HasPrefix line "@" then
      if (i =? 0)%nat then
        match slice_from_1 line with
        | None => Stop IndexPanic st
        | Some nm =>
            match (if ShortName args then first_field nm else Value nm) with
            | Panics => Stop IndexPanic st
            | Value nm' =>
                let hit := NameIndex.member filter nm' in
                Next (set_decision nm' (if Invert args then negb hit else hit) st)
            end
        end
      else Next st
    else Stop (ReturnErr (HeaderExpected (line_num st) line)) st
  else Next st.

(** Lines 252-261.  [sequences[i] = line] panics when [i] is out of range. *)
Definition on_sequence (i : nat) (line : string) (st : state) : flow :=
  if Z.rem (line_num st) 4 =? 1 then
    if (i <? length (sequences st))%nat then
      let st1 := set_sequences (<[i := line]> (sequences st)) st in
      if (i =? 0)%nat then
        if enable st1 then Next (set_included (int_incr (included st1)) st1)
        else Next (set_excluded (int_incr (excluded st1)) st1)
      else Next st1
    else Stop IndexPanic st
  else Next st.

(** Lines 262-276. *)
Definition emit (i : nat) (line : string) (st : state) : flow :=
  if enable st then
    if Tab args then
      if (i + 1 =? len_fq st)%nat && (Z.rem (line_num st) 4 =? 1) then
        Next (write StdStream (tab_line (name st) (sequences st) +:+ newline) st)
      else Next st
    else
      match outputs !! i with
      | None => Stop IndexPanic st
      | Some w =>
          if wr_ok (length (written st)) then Next (write w (line +:+ newline) st)
          else Stop (ReturnErr (WriteFailed (line_num st) i)) st
      end
  else Next st.

(** [inputScanners[i].Scan()] and [.Text()]. *)
Definition Scan (i : nat) (st : state) : checked (option (string * state)) :=
  match inputScanners st !! i with
  | None => Panics
  | Some [] => Value None
  | Some (line :: rest) =>
      Value (Some (line, set_inputScanners (<[i := rest]> (inputScanners st)) st))
  end.

(** The body of [for i := 0; i < len(fq); i++], lines 234-283. *)
Definition stream_step (i : nat) (st : state) : flow :=
  match Scan i st with
  | Panics => Stop IndexPanic st
  | Value None =>
      if (i =? 0)%nat then Stop ReturnNil st
      else Stop (ReturnErr (ScannerExpected i)) st
  | Value (Some (line, st1)) =>
      match on_header i line st1 with
      | Stop x st2 => Stop x st2
      | Next st2 =>
          match on_sequence i line st2 with
          | Stop x st3 => Stop x st3
          | Next st3 => emit i line st3
          end
      end
  end.

(** The inner loop from index [i], with [n = len(fq) - i] turns left. *)
Fixpoint for_streams (n i : nat) (st : state) : flow :=
  match n with
  | O => Next st
  | S n' =>
      match stream_step i st with
      | Stop x st' => Stop x st'
      | Next st' => for_streams n' (S i) st'
      end
  end.

(** One turn of the outer [for], lines 233-289.  The diagnostic that
    [log.Println] puts on the log stream is not part of the state. *)
Definition iteration (st : state) : flow :=
  match for_streams (len_fq st) 0 st with
  | Stop x st' => Stop x st'
  | Next st' =>
      let st'' := set_line_num (int_incr (line_num st')) st' in
      if (Limit args >? 0) && (included st'' >=? Limit args) then Stop ReturnNil st''
      else Next st''
  end.

(** The outer loop; [None] when the fuel runs out. *)
Fixpoint run (fuel : nat) (st : state) : option (exit * state) :=
  match fuel with
  | O => None
  | S fuel' =>
      match iteration st with
      | Stop x st' => Some (x, st')
      | Next st' => run fuel' st'
      end
  end.

(** The loop function of line 231 on the given scanner contents.  Each
    turn takes a line off stream 0, so one more turn than stream 0 has
    lines is enough ([EngineFacts.filter_streams_counted]). *)
Definition filter_streams (streams : list (list string)) : option (exit * state) :=
  run (S (length (hd [] streams))) (init (Invert args) streams).

End Loop.

End Engine.

(** ** Records laid out across the streams *)

Module Rows.

Import Startup Engine.

Definition push_row (row : list string) (rests : list (list string)) : list (list string) :=
  zip_with cons row rests.

Definition nonempty {A} (l : list A) : bool :=
  match l with [] => false | _ => true end.

(** One record across all streams: line [j] of stream [i] is element [i] of
    the [j]-th field. *)
Record Row := mkRow {
  hdr : list string;
  sq : list string;
  sep : list string;
  qual : list string
}.

Definition lay_row (r : Row) (rests : list (list string)) : list (list string) :=
  push_row (hdr r) (push_row (sq r) (push_row (sep r) (push_row (qual r) rests))).

(** Streams that hold the records [rows] followed by [tails]. *)
Definition lay (rows : list Row) (tails : list (list string)) : list (list string) :=
  foldr lay_row tails rows.

(** The writes of one line per stream, in stream order. *)
Definition line_writes (outs : list handle) (row : list string) : list (handle * string) :=
  zip_with (fun w l => (w, l +:+ newline)) outs row.

(** One FASTQ record of a single stream. *)
Record Read := mkRead {
  header : string;
  bases : string;
  plus : string;
  quality : string
}.

Definition read_lines (rd : Read) : list string :=
  [header rd; bases rd; plus rd; quality rd].

Definition read_row (rd : Read) : Row :=
  mkRow [header rd] [bases rd] [plus rd] [quality rd].

(** The same arguments with [-invert] set to [b]. *)
Definition with_invert (b : bool) (a : Args) : Args :=
  {| Invert := b; ReadsFilename := ReadsFilename a; OutPrefix := OutPrefix a;
     Limit := Limit a; Tab := Tab a; ShortName := ShortName a |}.

Section Config.

Variable args : Args.
Variable filter : gmap string bool.
Variable outputs : list handle.

(** The test of line 286. *)
Definition limit_reached (inc : Z) : bool :=
  (Limit args >? 0) && (inc >=? Limit args).

Definition header_name (l : string) : checked string :=
  match slice_from_1 l with
  | None => Panics
  | Some nm => if ShortName args then first_field nm else Value nm
  end.

Definition selected (nm : string) : bool :=
  let hit := NameIndex.member filter nm in
  if Invert args then negb hit else hit.

Definition row_output (p1 en : bool) (nm : string) (row : list string)
  : list (handle * string) :=
  if en then
    if Tab args then
      if p1 then [(StdStream, tab_line nm row +:+ newline)] else []
    else line_writes outputs row
  else [].

Definition row_name (r : Row) : checked string := header_name (hd "" (hdr r)).

Definition name_of (r : Row) : string :=
  match row_name r with Value nm => nm | Panics => "" end.

Definition row_selected (r : Row) : bool := selected (name_of r).

(** Well-formed record of [n] streams. *)
Definition wf_row (n : nat) (r : Row) : bool :=
  (length (hdr r) =? n)%nat && (length (sq r) =? n)%nat
  && (length (sep r) =? n)%nat && (length (qual r) =? n)%nat
  && forallb (fun x => HasPrefix x "@") (hdr r)
  && match row_name r with Value _ => true | Panics => false end.

(** Everything an included record puts in the log. *)
Definition record_lines (r : Row) : list (handle * string) :=
  if Tab args then [(StdStream, tab_line (name_of r) (sq r) +:+ newline)]
  else line_writes outputs (hdr r) ++ line_writes outputs (sq r)
       ++ line_writes outputs (sep r) ++ line_writes outputs (qual r).

Definition record_output (r : Row) : list (handle * string) :=
  if row_selected r then record_lines r else [].

(** The line of tabular mode for a record. *)
Definition tab_record (r : Row) : handle * string :=
  (StdStream, tab_line (name_of r) (sq r) +:+ newline).

(** What a positive limit leaves of the included records when [inc] are
    already counted. *)
Definition cut {A : Type} (inc : Z) (l : list A) : list A :=
  if Limit args >? 0 then take (Z.to_nat (Limit args - inc)) l else l.

End Config.

End Rows.

(** ** Counting the lines taken off stream 0 *)

Module Counting.

Import Engine.

(** The fields a turn of the inner loop on a stream other than 0 leaves alone. *)
Definition frame (st st' : state) : Prop :=
  line_num st' = line_num st /\ included st' = included st
  /\ excluded st' = excluded st /\ enable st' = enable st /\ name st' = name st
  /\ hd [] (inputScanners st') = hd [] (inputScanners st)
  /\ len_fq st' = len_fq st
  /\ length (sequences st') = length (sequences st).

Definition flow_state (f : flow) : state :=
  match f with Next st | Stop _ st => st end.

(** [counted L c st]: [c] lines of the [L] of stream 0 are consumed, and the
    counters add up to the sequence lines among them. *)
Definition counted (L : nat) (c : Z) (st : state) : Prop :=
  Z.of_nat (length (hd [] (inputScanners st))) + c = Z.of_nat L
  /\ 0 <= c
  /\ 0 <= included st /\ 0 <= excluded st
  /\ included st + excluded st = (c + 2) / 4
  /\ (0 < len_fq st)%nat
  /\ length (sequences st) = len_fq st.

(** Sequence lines among the first [consumed] lines of a stream: the
    positions [k < consumed] with [k mod 4 = 1]. *)
Definition sequence_lines (consumed : nat) : Z :=
  Z.of_nat (length (List.filter (fun k => (k mod 4 =? 1)%nat) (seq 0 consumed))).

(** Complete 4-line records among the first [consumed] lines. *)
Definition complete_records (consumed : nat) : Z := Z.of_nat (consumed / 4).

(** Lines of tabular mode still owed in the current turn, [i] streams done. *)
Definition tab_pending (i : nat) (st : state) : Z :=
  if enable st && (Z.rem (line_num st) 4 =? 1) && (0 <? i)%nat && (i <? len_fq st)%nat
  then 1 else 0.

Definition tab_counted (i : nat) (st : state) : Prop :=
  Z.of_nat (length (written st)) + tab_pending i st = included st.

End Counting.

(** ** Sample runs *)

Module Samples.

Import Startup Engine Rows.

(** A file system on which every open succeeds. *)
Definition every_file : FS :=
  {| can_open := fun _ => true; gzip_ok := fun _ => true; can_create := fun _ => true |}.

Definition tab_with_prefix : Args :=
  {| Invert := false; ReadsFilename := "names.txt"; OutPrefix := "out"; Limit := 0;
     Tab := true; ShortName := false |}.

Definition reads_stdin : Args :=
  {| Invert := false; ReadsFilename := "stdin"; OutPrefix := ""; Limit := 0;
     Tab := false; ShortName := false |}.

Definition names_a : gmap string bool := <["a" := true]> ∅.

Definition always_ok : nat -> bool := fun _ => true.

Definition reads_names : Args :=
  {| Invert := false; ReadsFilename := "names.txt"; OutPrefix := ""; Limit := 0;
     Tab := false; ShortName := false |}.

Definition limit_one : Args :=
  {| Invert := false; ReadsFilename := "names.txt"; OutPrefix := ""; Limit := 1;
     Tab := false; ShortName := false |}.

Definition tab_limit_one : Args :=
  {| Invert := false; ReadsFilename := "names.txt"; OutPrefix := ""; Limit := 1;
     Tab := true; ShortName := false |}.

Definition out_prefix : Args :=
  {| Invert := false; ReadsFilename := "names.txt"; OutPrefix := "out"; Limit := 0;
     Tab := false; ShortName := false |}.

Definition paired_outputs : list handle :=
  [GzipFile "out_1.fq.gz"; GzipFile "out_2.fq.gz"].

Definition read_a : Read := mkRead "@a" "ACGT" "+" "IIII".
Definition read_b : Read := mkRead "@b" "CC" "+" "II".
Definition read_c : Read := mkRead "@c" "G" "+" "I".

(** Two paired records; the mate headers differ from those of stream 0. *)
Definition pair_a : Row :=
  mkRow ["@a"; "@a/2"] ["ACGT"; "TTTT"] ["+"; "+"] ["IIII"; "IIII"].
Definition pair_b : Row :=
  mkRow ["@b"; "@b/2"] ["CC"; "GG"] ["+"; "+"] ["II"; "II"].

(** A pair whose second stream lacks the sentinel on its header. *)
Definition bad_mate : list (list string) :=
  [["@a"; "ACGT"; "+"; "IIII"]; ["a/2"; "TTTT"; "+"; "IIII"]].

(** A stream cut after the sequence line of its only record. *)
Definition truncated : list (list string) := [["@a"; "ACGT"]].

End Samples.

(** ** White space in names *)

Module Words.

(** [all_chars p s]: every byte of [s] satisfies [p]. *)
Fixpoint all_chars (p : ascii -> bool) (s : string) : bool :=
  match s with
  | EmptyString => true
  | String c s' => p c && all_chars p s'
  end.

(** A string without white space. *)
Definition no_space (s : string) : bool := all_chars (fun c => negb (asciiSpace c)) s.

(** A string of white space only (the empty string included). *)
Definition blank (s : string) : bool := all_chars asciiSpace s.

(** What may follow a field: nothing, or white space and anything. *)
Definition field_end (s : string) : bool :=
  match s with
  | EmptyString => true
  | String c _ => asciiSpace c
  end.

End Words.

(** ** More sample data *)

Module MoreSamples.

Import Startup Engine.

Definition short_names : Args :=
  {| Invert := false; ReadsFilename := "names.txt"; OutPrefix := ""; Limit := 0;
     Tab := false; ShortName := true |}.

(** The first write succeeds, every later one fails. *)
Definition one_write : nat -> bool := fun k => (k <? 1)%nat.

(** A mate file that ends after its header. *)
Definition short_mate : list (list string) := [["@a"; "ACGT"]; ["@a/2"]].

(** A header that is only the sentinel and a space. *)
Definition blank_header : list (list string) := [["@ "; "ACGT"; "+"; "IIII"]].

(** Two paired records as the scanners of two inputs deliver them. *)
Definition paired_content (i : nat) : list string :=
  nth i (Rows.lay [Samples.pair_a; Samples.pair_b] [[]; []]) [].

End MoreSamples.

(** ** Startup: what opens and what is prepared *)

Module StartupViews.

Import Startup.

(** [reader_opens fs fn]: [AmbiReader.Open] succeeds on the path [fn]. *)
Definition reader_opens (fs : FS) (fn : string) : bool :=
  String.eqb fn ""
  || (can_open fs fn && (negb (HasSuffix fn ".gz") || gzip_ok fs fn)).

(** The handle of output [i] as lines 172-188 prepare it. *)
Definition output_handle (prefix : string) (nfq i : nat) : handle :=
  if String.eqb prefix "" then StdStream else GzipFile (output_name prefix nfq i).

(** A file system that holds [r1.fq] and nothing else, and lets any file be
    created. *)
Definition only_r1 : FS :=
  {| can_open := fun f => String.eqb f "r1.fq"; gzip_ok := fun _ => true;
     can_create := fun _ => true |}.

End StartupViews.

(** ** Lockstep reading and the ways out of the loop *)

Module Lockstep.

Import Startup Engine Words.

(** The scanners advance together: in the turn for line [line_num], the
    streams below [j] have delivered that line and the others have not. *)
Definition lockstep (streams : list (list string)) (j : nat) (st : state) : Prop :=
  0 <= line_num st
  /\ length (inputScanners st) = length streams
  /\ length (sequences st) = length streams
  /\ forall i s, streams !! i = Some s ->
       (Z.to_nat (line_num st) + (if (i <? j)%nat then 1 else 0) <= length s)%nat
       /\ inputScanners st !! i
          = Some (drop (Z.to_nat (line_num st) + (if (i <? j)%nat then 1 else 0)) s).

Section Exits.

Variable args : Args.
Variable outputs : list handle.
Variable wr_ok : nat -> bool.
Variable streams : list (list string).

(** What each way of leaving the loop says about the input. *)
Definition explained (x : exit) (st' : state) : Prop :=
  match x with
  | ReturnNil =>
      (Z.to_nat (line_num st') = length (hd [] streams)
       /\ forall i s, streams !! i = Some s -> (length (hd [] streams) <= length s)%nat)
      \/ (0 < Limit args /\ Limit args <= included st')
  | ReturnErr (HeaderExpected ln line) =>
      ln = line_num st' /\ 0 <= ln /\ Z.rem ln 4 = 0 /\ HasPrefix line "@" = false
      /\ exists i s, streams !! i = Some s /\ s !! Z.to_nat ln = Some line
  | ReturnErr (WriteFailed ln i) =>
      ln = line_num st' /\ 0 <= ln /\ Tab args = false /\ enable st' = true
      /\ wr_ok (length (written st')) = false
      /\ is_Some (outputs !! i)
      /\ exists s, streams !! i = Some s /\ is_Some (s !! Z.to_nat ln)
  | ReturnErr (ScannerExpected i) =>
      (0 < i)%nat
      /\ exists s, streams !! i = Some s /\ length s = Z.to_nat (line_num st')
         /\ forall j s', (j < i)%nat -> streams !! j = Some s' ->
              (length s < length s')%nat
  | IndexPanic =>
      (ShortName args = true /\ Z.rem (line_num st') 4 = 0
       /\ exists l nm, hd [] streams !! Z.to_nat (line_num st') = Some l
            /\ slice_from_1 l = Some nm /\ blank nm = true)
      \/ (Tab args = false /\ enable st' = true
          /\ (length outputs < length streams)%nat)
  end.

End Exits.

End Lockstep.

(** ** The types [AmbiReader] and [AmbiWriter]: lines 43-140 *)

Module Ambi.

Import Startup.

(** The errors [Open] and [Close] return. *)
Inductive error :=
| AlreadyOpen                    (* "AmbiReader already open", "AmbiWriter already open" *)
| OpenError (fn : string)        (* from os.Open or os.Create *)
| GzipHeaderError (fn : string)  (* from gzip.NewReader *)
| ErrInvalid                     (* Close of a nil os.File *)
| GzCloseError (fn : string)     (* from the Close of the gzip layer *)
| FileCloseError (fn : string).  (* from the Close of the os.File *)

(** The calls [Close] makes. *)
Inductive close_event :=
| GzClose (fn : string)          (* a.gz.Close() *)
| FileClose (fn : string).       (* a.fp.Close() *)

(** Which of these calls succeed. *)
Record Closer := mkCloser {
  gz_close_ok : string -> bool;
  file_close_ok : string -> bool
}.

(** The three fields of either struct; a file and a gzip layer are named
    by the path they were opened on, [None] is [nil]. *)
Record ambi := mkAmbi {
  fp : option string;
  gz : option string;
  r : option handle
}.

(** The zero value [AmbiReader{}] / [AmbiWriter{}]. *)
Definition zero : ambi := mkAmbi None None None.

(** The struct that is bound to [h]: the file and the gzip layer behind
    the handle. *)
Definition bound (h : handle) : ambi :=
  match h with
  | StdStream => mkAmbi None None (Some StdStream)
  | PlainFile fn => mkAmbi (Some fn) None (Some h)
  | GzipFile fn => mkAmbi (Some fn) (Some fn) (Some h)
  end.

(** [Close] of both types (lines 79-90 and 103-114). *)
Definition Close (os : Closer) (a : ambi) : list close_event * option error :=
  let file_part :=
    match fp a with
    | None => ([], Some ErrInvalid)
    | Some f =>
        if file_close_ok os f then ([FileClose f], None)
        else ([FileClose f], Some (FileCloseError f))
    end in
  match gz a with
  | Some g =>
      if gz_close_ok os g then (GzClose g :: file_part.1, file_part.2)
      else ([GzClose g], Some (GzCloseError g))
  | None => file_part
  end.

End Ambi.

Module AmbiReader.

Import Startup Ambi.

(** Lines 54-77. *)
Definition Open (fs : FS) (fn : string) (a : ambi) : ambi * list event * option error :=
  match r a with
  | Some _ => (a, [], Some AlreadyOpen)
  | None =>
      if String.eqb fn "" then (mkAmbi (fp a) (gz a) (Some StdStream), [UseStdin], None)
      else if can_open fs fn then
        if HasSuffix fn ".gz" then
          if gzip_ok fs fn then
            (mkAmbi (Some fn) (Some fn) (Some (GzipFile fn)), [OsOpen fn], None)
          else (mkAmbi (Some fn) None None, [OsOpen fn], Some (GzipHeaderError fn))
        else (mkAmbi (Some fn) (gz a) (Some (PlainFile fn)), [OsOpen fn], None)
      else (mkAmbi None (gz a) None, [OsOpen fn], Some (OpenError fn))
  end.

(** A call made on a reader. *)
Inductive call :=
| CallOpen (fn : string)
| CallClose.

(** A sequence of calls: the reader after them, the files they opened and
    closed, and the result of each call. *)
Fixpoint calls (fs : FS) (os : Closer) (cs : list call) (a : ambi)
  : ambi * list event * list close_event * list (option error) :=
  match cs with
  | [] => (a, [], [], [])
  | CallOpen fn :: cs' =>
      let '(a1, ev, e) := Open fs fn a in
      let '(a2, evs, cls, es) := calls fs os cs' a1 in
      (a2, ev ++ evs, cls, e :: es)
  | CallClose :: cs' =>
      let '(cl, e) := Close os a in
      let '(a2, evs, cls, es) := calls fs os cs' a in
      (a2, evs, cl ++ cls, e :: es)
  end.

End AmbiReader.

Module AmbiWriter.

Import Startup Ambi.

(** Lines 116-136. *)
Definition Open (fs : FS) (fn : string) (a : ambi) : ambi * list event * option error :=
  match r a with
  | Some _ => (a, [], Some AlreadyOpen)
  | None =>
      if String.eqb fn "" then (mkAmbi (fp a) (gz a) (Some StdStream), [UseStdout], None)
      else if can_create fs fn then
        if HasSuffix fn ".gz" then
          (mkAmbi (Some fn) (Some fn) (Some (GzipFile fn)), [OsCreate fn], None)
        else (mkAmbi (Some fn) (gz a) (Some (PlainFile fn)), [OsCreate fn], None)
      else (mkAmbi None (gz a) None, [OsCreate fn], Some (OpenError fn))
  end.

(** Lines 138-140. *)
Definition Stdout (a : ambi) : ambi := mkAmbi (fp a) (gz a) (Some StdStream).

End AmbiWriter.

Module Deferred.

Import Startup Ambi.

(** What the deferred [Close] of a stream bound to [h] calls when every
    call succeeds. *)
Definition closes (h : handle) : list close_event :=
  match h with
  | StdStream => []
  | PlainFile fn => [FileClose fn]
  | GzipFile fn => [GzClose fn; FileClose fn]
  end.

Definition all_close : Closer :=
  {| gz_close_ok := fun _ => true; file_close_ok := fun _ => true |}.

End Deferred.

(** ** The whole of [main]: lines 142-297 *)

Module Main.

Import Startup Engine Ambi.

(** How the process ends. *)
Inductive ending :=
| FatalStartup (m : fatal)           (* log.Fatal of lines 146-199 *)
| FatalLoop (e : Engine.error)       (* log.Fatal(err), line 293 *)
| Panic                              (* a run-time panic *)
| Return (included excluded : Z).    (* the counts logged at lines 296-297 *)

Record result := mkResult {
  how : ending;
  opened : list event;               (* the system calls of startup *)
  closed : list close_event;         (* the calls of the deferred [Close]s *)
  output : list (handle * string)    (* the writes made by the loop *)
}.

(** The deferred calls, last in first out: [reads.Close()] (line 200), then
    [outputs[i].Close()] (line 186, deferred only under a prefix) from the
    last output to the first, then [inputs[i].Close()] (line 160)
    likewise.  Their results are dropped. *)
Definition deferred (os : Closer) (args : Args) (hs : handles) : list close_event :=
  (Close os (bound (reads hs))).1
  ++ (if String.eqb (OutPrefix args) "" then []
      else flat_map (fun h => (Close os (bound h)).1) (rev (outputs hs)))
  ++ flat_map (fun h => (Close os (bound h)).1) (rev (inputs hs)).

(** [main], given what the scanners deliver: [names] are the lines of the
    name list and [content i] those of input [i].  [log.Fatal] ends the
    process without running the deferred calls; a return and a panic run
    them. *)
Definition main (fs : FS) (os : Closer) (wr_ok : nat -> bool) (args : Args)
    (fq : list string) (names : list string) (content : nat -> list string)
  : option result :=
  match startup fs args fq with
  | (evs, Fatal m) => Some (mkResult (FatalStartup m) evs [] [])
  | (evs, Ready hs) =>
      match NameIndex.build (ShortName args) names with
      | Panics => Some (mkResult Panic evs (deferred os args hs) [])
      | Value filter =>
          match filter_streams args filter (outputs hs) wr_ok
                  (map content (seq 0 (length fq))) with
          | None => None
          | Some (ReturnNil, st) =>
              Some (mkResult (Return (included st) (excluded st)) evs
                      (deferred os args hs) (written st))
          | Some (ReturnErr e, st) => Some (mkResult (FatalLoop e) evs [] (written st))
          | Some (IndexPanic, st) =>
              Some (mkResult Panic evs (deferred os args hs) (written st))
          end
      end
  end.

(** The files a trace opens or creates, and the files a trace closes. *)
Definition files_opened (evs : list event) : list string :=
  omap (fun e => match e with
                 | OsOpen fn | OsCreate fn => Some fn
                 | _ => None
                 end) evs.

Definition files_closed (cls : list close_event) : list string :=
  omap (fun c => match c with FileClose fn => Some fn | GzClose _ => None end) cls.

(** The file behind a handle, if any. *)
Definition file_of (h : handle) : list string :=
  match h with
  | StdStream => []
  | PlainFile fn | GzipFile fn => [fn]
  end.

End Main.

(** ** The content of each output *)

Module Outputs.

Import Startup Engine Rows.

#[export] Instance handle_eq_dec : EqDecision handle.
Proof. solve_decision. Defined.

(** What the log sends to the sink [w], in order. *)
Definition sent_to (w : handle) (log : list (handle * string)) : list string :=
  map snd (List.filter (fun p => bool_decide (p.1 = w)) log).

(** The four lines of a record on stream [i]. *)
Definition record_of (i : nat) (r : Row) : list string :=
  [nth i (hdr r) ""; nth i (sq r) ""; nth i (sep r) ""; nth i (qual r) ""].

(** The lines of a record across the streams, position by position: the
    headers of all streams, then the sequences, the separators and the
    qualities. *)
Definition record_by_position (r : Row) : list string :=
  hdr r ++ sq r ++ sep r ++ qual r.

Definition with_newline (l : string) : string := l +:+ newline.

End Outputs.

(** * Properties *)

Example fields_example :
  Fields "  read1 1:N:0  x " = ["read1"; "1:N:0"; "x"].
Proof. reflexivity. Qed.

Example output_name_example :
  Startup.output_name "out" 2 1 = "out_2.fq.gz".
Proof. vm_compute. reflexivity. Qed.

(** ** Name Index *)

Module NameIndexFacts.

Import NameIndex.

Lemma member_insert (filter : gmap string bool) (k x : string) :
  member (<[k := true]> filter) x = true <-> k = x \/ member filter x = true.
Proof.
  unfold member. destruct (decide (k = x)) as [->|Hne].
  - rewrite lookup_insert_eq. tauto.
  - rewrite lookup_insert_ne by done. tauto.
Qed.

Lemma member_empty (x : string) : member (∅ : gmap string bool) x = false.
Proof. unfold member. by rewrite lookup_empty. Qed.

(** When every line yields an identifier, the loop returns a map whose
    keys are the initial keys and those identifiers. *)
Lemma scan_names_keys (short : bool) (lines names : list string) :
  Forall2 (fun l n => identifier short l = Value n) lines names ->
  forall filter : gmap string bool,
  exists m, scan_names short lines filter = Value m
    /\ forall x, member m x = true <-> x ∈ names \/ member filter x = true.
Proof.
  induction 1 as [|l n lines names Hl _ IH]; intros filter; simpl.
  - exists filter. split; [done|]. intros x. rewrite elem_of_nil. tauto.
  - assert (Ha : add_name short l filter = Value (<[n := true]> filter)).
    { unfold add_name, identifier in *. destruct short; [by rewrite Hl|congruence]. }
    rewrite Ha. destruct (IH (<[n := true]> filter)) as (m & Hm & Hkeys).
    exists m. split; [done|]. intros x.
    rewrite Hkeys, member_insert, elem_of_cons. intuition congruence.
Qed.

(** The NameSet holds exactly the identifiers of the list, duplicates
    collapsed, provided each line yields one. *)
Lemma build_keys (short : bool) (lines names : list string) :
  Forall2 (fun l n => identifier short l = Value n) lines names ->
  exists m, build short lines = Value m
    /\ forall x, member m x = true <-> x ∈ names.
Proof.
  intros H. destruct (scan_names_keys short lines names H ∅) as (m & Hm & Hkeys).
  exists m. split; [done|]. intros x. rewrite Hkeys, member_empty.
  intuition congruence.
Qed.

(** Without short names every list of lines is accepted verbatim. *)
Lemma build_verbatim (lines : list string) :
  exists m, build false lines = Value m
    /\ forall x, member m x = true <-> x ∈ lines.
Proof.
  apply build_keys. induction lines; constructor; done.
Qed.

(** C9 (failing input): with short names enabled, a name list holding a
    blank line makes [strings.Fields(name)[0]] index an empty slice: the
    loop panics and no NameSet is produced. *)
Theorem build_short_blank_line_panics :
  build true ["read1 1:N:0"; ""; "read2 1:N:0"] = Panics.
Proof. reflexivity. Qed.

End NameIndexFacts.

(** ** Startup *)

Module StartupFacts.

Import Startup Samples.

Lemma AmbiReader_Open_events (fs : FS) (fn : string) :
  Forall (fun e => opens_output e = false) (AmbiReader_Open fs fn).1.
Proof.
  unfold AmbiReader_Open.
  repeat case_match; simpl; repeat constructor.
Qed.

Lemma open_inputs_events (fs : FS) (fq : list string) :
  Forall (fun e => opens_output e = false) (open_inputs fs fq).1.
Proof.
  induction fq as [|fn rest IH]; simpl; [constructor|].
  pose proof (AmbiReader_Open_events fs fn) as Hr.
  destruct (AmbiReader_Open fs fn) as [ev [h|]]; simpl in *.
  - destruct (open_inputs fs rest) as [evs [hs|m]]; simpl in *;
      apply Forall_app; done.
  - apply Forall_app. split; [done|]. by repeat constructor.
Qed.

Lemma open_inputs_fatal (fs : FS) (fq : list string) (evs : list event) (m : fatal) :
  open_inputs fs fq = (evs, Fatal m) -> is_config_error m = false.
Proof.
  revert evs. induction fq as [|fn rest IH]; simpl; intros evs H; [done|].
  destruct (AmbiReader_Open fs fn) as [ev [h|]].
  - destruct (open_inputs fs rest) as [evs' [hs|m']]; [done|].
    injection H as _ <-. by eapply IH.
  - by injection H as _ <-.
Qed.

Lemma open_outputs_fatal (fs : FS) (prefix : string) (nfq n i : nat)
      (evs : list event) (m : fatal) :
  open_outputs fs prefix nfq n i = (evs, Fatal m) -> is_config_error m = false.
Proof.
  revert i evs. induction n as [|n IH]; simpl; intros i evs H; [done|].
  destruct (String.eqb prefix "").
  - destruct (open_outputs fs prefix nfq n (S i)) as [evs' [hs|m']] eqn:E; [done|].
    injection H as _ <-. by eapply IH.
  - destruct (AmbiWriter_Open fs (output_name prefix nfq i)) as [ev [h|]].
    + destruct (open_outputs fs prefix nfq n (S i)) as [evs' [hs|m']] eqn:E; [done|].
      injection H as _ <-. by eapply IH.
    + by injection H as _ <-.
Qed.

Lemma open_reads_fatal (fs : FS) (args : Args) (evs : list event) (m : fatal) :
  open_reads fs args = (evs, Fatal m) -> is_config_error m = false.
Proof.
  unfold open_reads. destruct (AmbiReader_Open fs (readsFn args)) as [ev [h|]]; [done|].
  by injection 1 as _ <-.
Qed.




Lemma readsFn_stdin (args : Args) :
  ReadsFilename args = "stdin" -> readsFn args = "".
Proof. unfold readsFn. by intros ->. Qed.

Lemma readsFn_other (args : Args) :
  ReadsFilename args <> "stdin" -> readsFn args = ReadsFilename args.
Proof.
  unfold readsFn. intros H.
  destruct (String.eqb_spec (ReadsFilename args) "stdin"); done.
Qed.

Lemma open_reads_stdin (fs : FS) (args : Args) :
  ReadsFilename args = "stdin" ->
  open_reads fs args = ([UseStdin], Ready StdStream).
Proof.
  intros H. unfold open_reads. rewrite (readsFn_stdin _ H). reflexivity.
Qed.

Lemma open_reads_file (fs : FS) (args : Args) :
  ReadsFilename args <> "stdin" -> ReadsFilename args <> "" ->
  exists rest r,
    open_reads fs args = (OsOpen (ReadsFilename args) :: rest, r)
    /\ Forall (fun e => e <> UseStdin) rest
    /\ forall h, r = Ready h ->
         h = PlainFile (ReadsFilename args) \/ h = GzipFile (ReadsFilename args).
Proof.
  intros Hs He. unfold open_reads. rewrite (readsFn_other _ Hs).
  unfold AmbiReader_Open.
  destruct (String.eqb_spec (ReadsFilename args) ""); [done|].
  repeat case_match; simplify_eq; simpl;
    eexists _, _; (split; [reflexivity|]); split;
    try (repeat constructor; done); intros h Hh; simplify_eq; auto.
Qed.

(** The reader of the name list that [startup] hands on is the one
    [open_reads] made. *)
Lemma startup_reads (fs : FS) (args : Args) (fq : list string)
      (evs : list event) (hs : handles) :
  startup fs args fq = (evs, Ready hs) ->
  ReadsFilename args <> "" /\ exists ev, open_reads fs args = (ev, Ready (reads hs)).
Proof.
  unfold startup. intros H.
  destruct (String.eqb_spec (ReadsFilename args) ""); [done|]. split; [done|].
  destruct (length fq =? 0)%nat; [done|].
  destruct (open_inputs fs fq) as [ev1 [ins|m1]]; [|done].
  destruct (if Tab args then _ else _) as [ev2 [outs|m2]]; [|done].
  destruct (open_reads fs args) as [ev3 [rd|m3]]; [|done].
  injection H as _ <-. by exists ev3.
Qed.

(** C10: the path ["stdin"] binds the name-list reader to standard input
    and opens no file; any other non-empty path is passed to [os.Open], and
    a reader that opens is bound to that file; the reader with which startup
    ends is bound accordingly. *)
Theorem reads_source (fs : FS) (args : Args) :
  (ReadsFilename args = "stdin" ->
     open_reads fs args = ([UseStdin], Ready StdStream))
  /\ (ReadsFilename args <> "stdin" -> ReadsFilename args <> "" ->
      exists rest r,
        open_reads fs args = (OsOpen (ReadsFilename args) :: rest, r)
        /\ Forall (fun e => e <> UseStdin) rest
        /\ forall h, r = Ready h ->
             h = PlainFile (ReadsFilename args) \/ h = GzipFile (ReadsFilename args))
  /\ (forall fq evs hs,
        startup fs args fq = (evs, Ready hs) ->
        if String.eqb (ReadsFilename args) "stdin" then reads hs = StdStream
        else reads hs = PlainFile (ReadsFilename args)
             \/ reads hs = GzipFile (ReadsFilename args)).
Proof.
  split; [apply open_reads_stdin|]. split; [apply open_reads_file|].
  intros fq evs hs H. apply startup_reads in H as (Hne & ev & Hrd).
  destruct (String.eqb_spec (ReadsFilename args) "stdin") as [Hs|Hs].
  - rewrite (open_reads_stdin fs args Hs) in Hrd. by injection Hrd as _ <-.
  - destruct (open_reads_file fs args Hs Hne) as (rest & r & Heq & _ & Hh).
    rewrite Heq in Hrd. injection Hrd as _ ->. by apply Hh.
Qed.

Lemma reads_source_witness :
  open_reads every_file reads_stdin = ([UseStdin], Ready StdStream)
  /\ exists rest r,
       open_reads every_file tab_with_prefix = (OsOpen "names.txt" :: rest, r)
       /\ Forall (fun e => e <> UseStdin) rest
       /\ forall h, r = Ready h -> h = PlainFile "names.txt" \/ h = GzipFile "names.txt".
Proof.
  split.
  - apply (proj1 (reads_source every_file reads_stdin)). reflexivity.
  - apply (proj1 (proj2 (reads_source every_file tab_with_prefix))); discriminate.
Defined.

End StartupFacts.

(** ** Synchronized filter engine *)

Module EngineFacts.

Import Startup Engine Rows Counting.

(** Away from the largest [int], [x++] adds one. *)
Lemma int_incr_in_range (z : Z) : - 2 ^ 63 <= z < 2 ^ 63 - 1 -> int_incr z = z + 1.
Proof.
  intros H. unfold int_incr, int_wrap.
  rewrite Z.mod_small; lia.
Qed.

Lemma rem4_nonneg (z : Z) : 0 <= z -> Z.rem z 4 = z mod 4.
Proof. intros H. apply Z.rem_mod_nonneg; lia. Qed.

(** Line positions: [line_num % 4] on non-negative counters. *)
Lemma rem4 (k j : Z) : 0 <= k -> 0 <= j < 4 -> Z.rem (4 * k + j) 4 = j.
Proof.
  intros Hk Hj. rewrite Z.rem_mod_nonneg by lia.
  rewrite Z.add_comm, Z.mul_comm, Z_mod_plus_full. apply Z.mod_small. lia.
Qed.

Lemma rem4_0 (k : Z) : 0 <= k -> Z.rem (4 * k) 4 = 0.
Proof. intros Hk. rewrite <- (rem4 k 0) by lia. f_equal. lia. Qed.

Section Rows.
Variable args : Args.
Variable filter : gmap string bool.
Variable outputs : list handle.
Variable wr_ok : nat -> bool.
Hypothesis wr_ok_all : forall k, wr_ok k = true.

Local Abbreviation limit_reached := (limit_reached args).
Local Abbreviation header_name := (header_name args).
Local Abbreviation selected := (selected args filter).
Local Abbreviation row_output := (row_output args outputs).
Local Abbreviation row_name := (row_name args).
Local Abbreviation name_of := (name_of args).
Local Abbreviation row_selected := (row_selected args filter).
Local Abbreviation wf_row := (wf_row args).
Local Abbreviation record_lines := (record_lines args outputs).
Local Abbreviation record_output := (record_output args filter outputs).
Local Abbreviation tab_record := (tab_record args).
Local Abbreviation cut := (cut args).

Local Arguments Z.rem : simpl never.

(** Scanning stream [length done] takes the first line off it. *)
Lemma Scan_at (done zs : list (list string)) (l : string) (r : list string)
      (ln inc exc : Z) (en : bool) (nm : string) (sq : list string)
      (w : list (handle * string)) :
  Scan (length done) (mkState (done ++ (l :: r) :: zs) ln inc exc en nm sq w)
  = Value (Some (l, mkState (done ++ r :: zs) ln inc exc en nm sq w)).
Proof.
  unfold Scan. simpl. rewrite list_lookup_middle by done.
  rewrite insert_app_r_alt, Nat.sub_diag by lia. done.
Qed.

Lemma on_header_other (i : nat) (l : string) (st : state) :
  (0 < i)%nat ->
  ((Z.rem (line_num st) 4 =? 0) = true -> HasPrefix l "@" = true) ->
  on_header args filter i l st = Next st.
Proof.
  intros Hi Hh. unfold on_header.
  destruct (Z.rem (line_num st) 4 =? 0); [|done].
  rewrite Hh by done. destruct i; [lia|done].
Qed.

Lemma on_sequence_other (i : nat) (l : string) (sc : list (list string))
      (ln inc exc : Z) (en : bool) (nm : string) (sq : list string)
      (w : list (handle * string)) :
  (0 < i < length sq)%nat ->
  on_sequence i l (mkState sc ln inc exc en nm sq w)
  = Next (mkState sc ln inc exc en nm (if Z.rem ln 4 =? 1 then <[i := l]> sq else sq) w).
Proof.
  intros Hi. unfold on_sequence. simpl.
  destruct (Z.rem ln 4 =? 1); [|done].
  replace (i <? length sq)%nat with true by (symmetry; apply Nat.ltb_lt; lia).
  destruct i; [lia|done].
Qed.

(** When writes succeed, [emit] only extends the log. *)
Lemma emit_at (i : nat) (l : string) (o : handle) (sc : list (list string))
      (ln inc exc : Z) (en : bool) (nm : string) (sq : list string)
      (w : list (handle * string)) :
  (Tab args = false -> outputs !! i = Some o) ->
  emit args outputs wr_ok i l (mkState sc ln inc exc en nm sq w)
  = Next (mkState sc ln inc exc en nm sq
            (w ++ if en then
                    if Tab args then
                      if (i + 1 =? length sc)%nat && (Z.rem ln 4 =? 1)
                      then [(StdStream, tab_line nm sq +:+ newline)]
                      else []
                    else [(o, l +:+ newline)]
                  else [])).
Proof.
  intros Hout. unfold emit, len_fq. simpl.
  destruct en; [|by rewrite app_nil_r].
  destruct (Tab args).
  - destruct ((i + 1 =? length sc)%nat && (Z.rem ln 4 =? 1)); [done|by rewrite app_nil_r].
  - rewrite Hout by done. rewrite wr_ok_all. done.
Qed.

(** The turn of the inner loop on a stream other than 0 that has a line. *)
Lemma stream_step_other (done zs : list (list string)) (l : string) (r : list string)
      (sqd sqr : list string) (s : string) (o : handle)
      (ln inc exc : Z) (en : bool) (nm : string) (w : list (handle * string)) :
  (0 < length done)%nat ->
  length sqd = length done ->
  (Tab args = false -> outputs !! length done = Some o) ->
  ((Z.rem ln 4 =? 0) = true -> HasPrefix l "@" = true) ->
  stream_step args filter outputs wr_ok (length done)
    (mkState (done ++ (l :: r) :: zs) ln inc exc en nm (sqd ++ s :: sqr) w)
  = Next (mkState (done ++ r :: zs) ln inc exc en nm
            (if Z.rem ln 4 =? 1 then sqd ++ l :: sqr else sqd ++ s :: sqr)
            (w ++ if en then
                    if Tab args then
                      if negb (nonempty zs) && (Z.rem ln 4 =? 1)
                      then [(StdStream, tab_line nm (sqd ++ l :: sqr) +:+ newline)]
                      else []
                    else [(o, l +:+ newline)]
                  else [])).
Proof.
  intros Hpos Hsq Hout Hhdr.
  unfold stream_step. rewrite Scan_at.
  replace (length done =? 0)%nat with false by (symmetry; apply Nat.eqb_neq; lia).
  rewrite on_header_other by done.
  rewrite on_sequence_other by (rewrite length_app; simpl; lia).
  rewrite (emit_at _ _ o) by done.
  assert (Hlen : (length done + 1 =? length (done ++ r :: zs))%nat = negb (nonempty zs)).
  { rewrite length_app. simpl. destruct zs; simpl.
    - apply Nat.eqb_eq. lia.
    - apply Nat.eqb_neq. lia. }
  assert (Hins : <[length done := l]> (sqd ++ s :: sqr) = sqd ++ l :: sqr).
  { rewrite <- Hsq, insert_app_r_alt, Nat.sub_diag by lia. done. }
  rewrite Hlen, Hins.
  destruct (Z.rem ln 4 =? 1); [done|].
  by rewrite !andb_false_r.
Qed.

Lemma line_writes_nil_r (outs : list handle) : line_writes outs [] = [].
Proof. by destruct outs. Qed.

(** The inner loop over the streams after [done], each holding a line of
    [row]: the lines are taken off, stored at a sequence position, and written
    in stream order when the record is included. *)
Lemma for_streams_rest (row : list string) :
  forall (rests done : list (list string)) (sqd sqr : list string)
         (outd outr : list handle)
         (ln inc exc : Z) (en : bool) (nm : string) (w : list (handle * string)),
  (0 < length done)%nat ->
  length rests = length row ->
  length sqr = length row ->
  length sqd = length done ->
  (Tab args = false ->
   outputs = outd ++ outr /\ length outd = length done /\ length outr = length row) ->
  ((Z.rem ln 4 =? 0) = true -> Forall (fun l => HasPrefix l "@" = true) row) ->
  for_streams args filter outputs wr_ok (length row) (length done)
    (mkState (done ++ push_row row rests) ln inc exc en nm (sqd ++ sqr) w)
  = Next (mkState (done ++ rests) ln inc exc en nm
            (if Z.rem ln 4 =? 1 then sqd ++ row else sqd ++ sqr)
            (w ++ if en then
                    if Tab args then
                      if nonempty row && (Z.rem ln 4 =? 1)
                      then [(StdStream, tab_line nm (sqd ++ row) +:+ newline)]
                      else []
                    else line_writes outr row
                  else [])).
Proof.
  induction row as [|l row IH];
    intros rests done sqd sqr outd outr ln inc exc en nm w Hpos Hr Hs Hsd Hout Hhdr.
  - destruct rests; [|done]. destruct sqr; [|done]. simpl.
    rewrite line_writes_nil_r. repeat case_match; by rewrite ?app_nil_r.
  - destruct rests as [|r rests]; [done|]. destruct sqr as [|s sqr]; [done|].
    simpl in Hr, Hs.
    set (o := match outr with o :: _ => o | [] => StdStream end).
    assert (Ho : Tab args = false -> outputs !! length done = Some o
                 /\ outputs = (outd ++ [o]) ++ tail outr
                 /\ length (outd ++ [o]) = length (done ++ [r])
                 /\ length (tail outr) = length row).
    { intros Ht. destruct (Hout Ht) as (-> & Hd & Hl).
      destruct outr as [|o' outr]; [done|]. subst o. simpl in *.
      rewrite <- Hd, list_lookup_middle by done.
      rewrite !length_app, <- app_assoc. simpl. repeat split; lia. }
    simpl for_streams. unfold push_row. simpl zip_with.
    rewrite (stream_step_other _ _ _ _ _ _ _ o); [|done|done|intros Ht; apply (Ho Ht)|].
    2:{ intros H. specialize (Hhdr H). by apply Forall_cons in Hhdr as [? _]. }
    assert (Hrest : (Z.rem ln 4 =? 0) = true -> Forall (fun l => HasPrefix l "@" = true) row).
    { intros H. specialize (Hhdr H). by apply Forall_cons in Hhdr as [_ ?]. }
    assert (Hz : nonempty (zip_with cons row rests) = nonempty row).
    { destruct row, rests; done. }
    assert (Hd : S (length done) = length (done ++ [r])).
    { rewrite length_app. simpl. lia. }
    assert (Hsd' : forall x : string, length (sqd ++ [x]) = length (done ++ [r])).
    { intros x. rewrite !length_app. simpl. lia. }
    fold (push_row row rests).
    replace (done ++ r :: push_row row rests) with ((done ++ [r]) ++ push_row row rests)
      by (by rewrite <- app_assoc).
    rewrite Hd.
    destruct (Z.rem ln 4 =? 1) eqn:E1.
    + replace (sqd ++ l :: sqr) with ((sqd ++ [l]) ++ sqr) by (by rewrite <- app_assoc).
      rewrite (IH rests (done ++ [r]) (sqd ++ [l]) sqr (outd ++ [o]) (tail outr));
        [|rewrite length_app; simpl; lia|lia|lia|done
         |intros Ht; apply (Ho Ht)|done].
      rewrite <- !app_assoc. simpl. rewrite ?E1. do 3 f_equal.
      destruct en; simpl; [|done].
      destruct (Tab args) eqn:Et.
      * unfold push_row. rewrite Hz, !andb_true_r.
        destruct row; simpl; [by destruct sqr|done].
      * destruct (Hout eq_refl) as (_ & _ & Hl). destruct outr; done.
    + replace (sqd ++ s :: sqr) with ((sqd ++ [s]) ++ sqr) by (by rewrite <- app_assoc).
      rewrite (IH rests (done ++ [r]) (sqd ++ [s]) sqr (outd ++ [o]) (tail outr));
        [|rewrite length_app; simpl; lia|lia|lia|done
         |intros Ht; apply (Ho Ht)|done].
      rewrite <- !app_assoc. simpl. rewrite ?E1. do 3 f_equal.
      destruct en; simpl; [|done].
      destruct (Tab args) eqn:Et.
      * by rewrite !andb_false_r.
      * destruct (Hout eq_refl) as (_ & _ & Hl). destruct outr; done.
Qed.

(** On stream 0 a valid header sets the name and the decision. *)
Lemma on_header_first (l : string) (nm' : string) (sc : list (list string))
      (ln inc exc : Z) (en : bool) (nm : string) (sq : list string)
      (w : list (handle * string)) :
  ((Z.rem ln 4 =? 0) = true -> HasPrefix l "@" = true /\ header_name l = Value nm') ->
  on_header args filter 0 l (mkState sc ln inc exc en nm sq w)
  = Next (mkState sc ln inc exc
            (if Z.rem ln 4 =? 0 then selected nm' else en)
            (if Z.rem ln 4 =? 0 then nm' else nm) sq w).
Proof.
  intros Hh. unfold on_header. simpl.
  destruct (Z.rem ln 4 =? 0); [|done].
  destruct Hh as [-> Hn]; [done|]. unfold header_name in Hn.
  destruct (slice_from_1 l) as [n|]; [|done].
  rewrite Hn. done.
Qed.

(** On stream 0 a sequence line is stored and the record is counted. *)
Lemma on_sequence_first (l : string) (sc : list (list string))
      (ln inc exc : Z) (en : bool) (nm : string) (sq : list string)
      (w : list (handle * string)) :
  (0 < length sq)%nat ->
  on_sequence 0 l (mkState sc ln inc exc en nm sq w)
  = Next (mkState sc ln
            (if (Z.rem ln 4 =? 1) && en then int_incr inc else inc)
            (if (Z.rem ln 4 =? 1) && negb en then int_incr exc else exc)
            en nm (if Z.rem ln 4 =? 1 then <[0%nat := l]> sq else sq) w).
Proof.
  intros Hsq. unfold on_sequence. simpl. destruct (Z.rem ln 4 =? 1); [|done].
  replace (0 <? length sq)%nat with true by (symmetry; apply Nat.ltb_lt; lia).
  by destruct en.
Qed.

(** One turn of the outer loop on a row of lines, one per stream. *)
Lemma iteration_row (row : list string) (rests : list (list string))
      (sqs : list string) (ln inc exc : Z) (en : bool) (nm nm' : string)
      (w : list (handle * string)) :
  (0 < length row)%nat ->
  length rests = length row ->
  length sqs = length row ->
  (Tab args = false -> length outputs = length row) ->
  ((Z.rem ln 4 =? 0) = true ->
   Forall (fun x => HasPrefix x "@" = true) row /\ header_name (hd "" row) = Value nm') ->
  let p0 := Z.rem ln 4 =? 0 in
  let p1 := Z.rem ln 4 =? 1 in
  let en1 := if p0 then selected nm' else en in
  let nm1 := if p0 then nm' else nm in
  let inc1 := if p1 && en1 then int_incr inc else inc in
  let exc1 := if p1 && negb en1 then int_incr exc else exc in
  let st' := mkState rests (int_incr ln) inc1 exc1 en1 nm1
                     (if p1 then row else sqs)
                     (w ++ row_output p1 en1 nm1 row) in
  iteration args filter outputs wr_ok
    (mkState (push_row row rests) ln inc exc en nm sqs w)
  = if limit_reached inc1 then Stop ReturnNil st' else Next st'.
Proof.
  intros Hrow Hr Hs Hout Hh p0 p1 en1 nm1 inc1 exc1 st'.
  destruct row as [|l row]; [simpl in Hrow; lia|]. simpl in Hr, Hs, Hout, Hh. clear Hrow.
  destruct rests as [|r rests]; [done|]. destruct sqs as [|s sqs]; [done|].
  simpl in Hr, Hs. injection Hr as Hr. injection Hs as Hs.
  assert (Hp : p0 = true -> p1 = false) by (subst p0 p1; lia).
  set (o := match outputs with o :: _ => o | [] => StdStream end).
  assert (Ho : Tab args = false ->
               outputs !! 0%nat = Some o
               /\ outputs = [o] ++ tail outputs
               /\ length [o] = length [r]
               /\ length (tail outputs) = length row).
  { intros Ht. specialize (Hout Ht). subst o. destruct outputs; [done|].
    simpl in *. repeat split; lia. }
  assert (Hlen : length (push_row row rests) = length row).
  { unfold push_row. rewrite length_zip_with. lia. }
  unfold iteration, len_fq. unfold push_row at 1 2. simpl zip_with.
  fold (push_row row rests). simpl length. rewrite Hlen. simpl for_streams.
  unfold stream_step at 1.
  pose proof (Scan_at [] (push_row row rests) l r ln inc exc en nm (s :: sqs) w) as HS.
  simpl in HS. rewrite HS. clear HS.
  rewrite (on_header_first l nm').
  2:{ intros H. destruct (Hh H) as [HF ?]. by apply Forall_cons in HF as [? _]. }
  rewrite on_sequence_first by (simpl; lia).
  rewrite (emit_at _ _ o) by (intros Ht; apply (Ho Ht)).
  fold p0 p1 en1 nm1. fold inc1 exc1.
  pose proof (for_streams_rest row rests [r]
                (if p1 then [l] else [s]) sqs [o] (tail outputs)
                ln inc1 exc1 en1 nm1) as HR.
  simpl in HR. fold p1 in HR.
  replace (if p1 then <[0%nat:=l]> (s :: sqs) else s :: sqs)
    with ((if p1 then [l] else [s]) ++ sqs) by (by destruct p1).
  rewrite HR; clear HR; [|lia|lia|lia|by destruct p1|intros Ht; apply (Ho Ht)|].
  2:{ intros H. destruct (Hh H) as [HF ?]. by apply Forall_cons in HF as [_ ?]. }
  assert (Hst : forall A (x : A) xs (q : bool), (if q then (if q then [x] else xs) else []) = if q then [x] else []).
  { intros. by destruct q. }
  subst st'.
  assert (Hw : (w ++ (if en1 then
                   if Tab args then
                     if (0 + 1 =? length (r :: push_row row rests))%nat && p1
                     then [(StdStream,
                            tab_line nm1 ((if p1 then [l] else [s]) ++ sqs) +:+ newline)]
                     else []
                   else [(o, l +:+ newline)]
                 else [])) ++
               (if en1 then
                  if Tab args then
                    if nonempty row && p1
                    then [(StdStream,
                           tab_line nm1 ((if p1 then [l] else [s]) ++ row) +:+ newline)]
                    else []
                  else line_writes (tail outputs) row
                else [])
               = w ++ row_output p1 en1 nm1 (l :: row)).
  { rewrite <- app_assoc. f_equal. unfold row_output.
    destruct en1; [|done]. destruct (Tab args) eqn:Et.
    - simpl length. rewrite Hlen. destruct p1; [|by rewrite !andb_false_r].
      rewrite !andb_true_r. destruct row; simpl; [by destruct sqs|done].
    - destruct (Ho eq_refl) as (_ & Heq & _). rewrite Heq at 2. done. }
  rewrite Hw.
  replace (if p1 then (if p1 then [l] else [s]) ++ row else (if p1 then [l] else [s]) ++ sqs)
    with (if p1 then l :: row else s :: sqs) by (by destruct p1).
  unfold limit_reached. simpl. done.
Qed.

(** What [wf_row] decides. *)
Lemma wf_row_spec (n : nat) (r : Row) :
  wf_row n r = true ->
  length (hdr r) = n /\ length (sq r) = n /\ length (sep r) = n /\ length (qual r) = n
  /\ Forall (fun x => HasPrefix x "@" = true) (hdr r)
  /\ header_name (hd "" (hdr r)) = Value (name_of r).
Proof.
  unfold wf_row, name_of, row_name. intros H.
  rewrite !andb_true_iff in H.
  destruct H as (((((H1 & H2) & H3) & H4) & H5) & H6).
  repeat split; try (by apply Nat.eqb_eq).
  - apply Forall_forall. intros x Hx.
    rewrite forallb_forall in H5. apply H5. by apply list_elem_of_In.
  - by destruct (header_name (hd "" (hdr r))).
Qed.

Section Record.

Variable n : nat.
Variable r : Row.
Variable rests : list (list string).
Variables (k inc exc : Z) (en : bool) (nm : string) (sqs : list string).
Variable w : list (handle * string).

Hypothesis wf : wf_row (S n) r = true.
Hypothesis rests_len : length rests = S n.
Hypothesis sqs_len : length sqs = S n.
Hypothesis outputs_len : Tab args = false -> length outputs = S n.
Hypothesis k_range : 0 <= k /\ 4 * k + 4 < 2 ^ 63.
Hypothesis inc_range : 0 <= inc < 2 ^ 63 - 1.
Hypothesis exc_range : 0 <= exc < 2 ^ 63 - 1.
Hypothesis below_limit : limit_reached inc = false.

Let d := row_selected r.
Let inc1 := if d then inc + 1 else inc.
Let exc1 := if d then exc else exc + 1.

(** The first two turns on a record: header and sequence rows. *)
Lemma run_record_half (fuel : nat) :
  run args filter outputs wr_ok (S (S fuel))
    (mkState (lay_row r rests) (4 * k) inc exc en nm sqs w)
  = let st' := mkState (push_row (sep r) (push_row (qual r) rests)) (4 * k + 2)
                       inc1 exc1 d (name_of r) (sq r)
                       (w ++ row_output false d (name_of r) (hdr r)
                          ++ row_output true d (name_of r) (sq r)) in
    if limit_reached inc1 then Some (ReturnNil, st')
    else run args filter outputs wr_ok fuel st'.
Proof.
  destruct (wf_row_spec _ _ wf) as (Hh & Hs & Hp & Hq & Hpre & Hname).
  unfold lay_row.
  cbn [run].
  rewrite (iteration_row _ _ _ _ _ _ _ _ (name_of r));
    [|lia|unfold push_row; rewrite !length_zip_with; lia|lia|intros ?; rewrite outputs_len; done|done].
  rewrite !rem4_0 by lia.
  change (0 =? 0) with true. change (0 =? 1) with false. cbn [andb].
  rewrite below_limit. change (selected (name_of r)) with d.
  rewrite (int_incr_in_range (4 * k)) by lia.
  rewrite (iteration_row _ _ _ _ _ _ _ _ "");
    [|lia|unfold push_row; rewrite !length_zip_with; lia|lia|intros ?; rewrite outputs_len; done|].
  2:{ rewrite rem4 by lia. done. }
  rewrite !rem4 by lia.
  change (1 =? 0) with false. change (1 =? 1) with true. cbn [andb].
  rewrite (int_incr_in_range (4 * k + 1)) by lia.
  replace (4 * k + 1 + 1) with (4 * k + 2) by lia.
  replace (if d then int_incr inc else inc) with inc1
    by (subst inc1; destruct d; [rewrite int_incr_in_range by lia|]; done).
  replace (if negb d then int_incr exc else exc) with exc1
    by (subst exc1; destruct d; simpl; [|rewrite int_incr_in_range by lia]; done).
  rewrite <- app_assoc. cbn zeta.
  by destruct (limit_reached inc1).
Qed.

(** The last two turns: separator and quality rows. *)
Lemma run_record_rest (fuel : nat) (w' : list (handle * string)) :
  limit_reached inc1 = false ->
  run args filter outputs wr_ok (S (S fuel))
    (mkState (push_row (sep r) (push_row (qual r) rests)) (4 * k + 2)
             inc1 exc1 d (name_of r) (sq r) w')
  = run args filter outputs wr_ok fuel
      (mkState rests (4 * k + 4) inc1 exc1 d (name_of r) (sq r)
               (w' ++ row_output false d (name_of r) (sep r)
                  ++ row_output false d (name_of r) (qual r))).
Proof.
  intros Hlim.
  destruct (wf_row_spec _ _ wf) as (Hh & Hs & Hp & Hq & Hpre & Hname).
  cbn [run].
  rewrite (iteration_row _ _ _ _ _ _ _ _ "");
    [|lia|unfold push_row; rewrite !length_zip_with; lia|lia|intros ?; rewrite outputs_len; done|].
  2:{ rewrite rem4 by lia. done. }
  rewrite !rem4 by lia.
  change (2 =? 0) with false. change (2 =? 1) with false. cbn [andb].
  rewrite Hlim.
  rewrite (int_incr_in_range (4 * k + 2)) by lia.
  replace (4 * k + 2 + 1) with (4 * k + 3) by lia.
  rewrite (iteration_row _ _ _ _ _ _ _ _ "");
    [|lia|lia|lia|intros ?; rewrite outputs_len; done|].
  2:{ rewrite rem4 by lia. done. }
  rewrite !rem4 by lia.
  change (3 =? 0) with false. change (3 =? 1) with false. cbn [andb].
  rewrite Hlim.
  rewrite (int_incr_in_range (4 * k + 3)) by lia.
  replace (4 * k + 3 + 1) with (4 * k + 4) by lia.
  by rewrite <- app_assoc.
Qed.

(** The four rows of a record put together its output. *)
Lemma record_output_rows :
  row_output false d (name_of r) (hdr r) ++ row_output true d (name_of r) (sq r)
  ++ row_output false d (name_of r) (sep r) ++ row_output false d (name_of r) (qual r)
  = record_output r.
Proof.
  unfold record_output, record_lines, row_output. fold d.
  destruct d; [|done]. by destruct (Tab args).
Qed.

(** A whole record, when the limit is not reached on it. *)
Lemma run_record (fuel : nat) :
  limit_reached inc1 = false ->
  run args filter outputs wr_ok (4 + fuel)
    (mkState (lay_row r rests) (4 * k) inc exc en nm sqs w)
  = run args filter outputs wr_ok fuel
      (mkState rests (4 * k + 4) inc1 exc1 d (name_of r) (sq r)
               (w ++ record_output r)).
Proof.
  intros Hlim.
  change (4 + fuel)%nat with (S (S (S (S fuel)))).
  rewrite run_record_half. cbn zeta. rewrite Hlim.
  rewrite run_record_rest by done.
  by rewrite <- !app_assoc, record_output_rows.
Qed.

End Record.


Lemma length_lay_row (n : nat) (r : Row) (rests : list (list string)) :
  wf_row n r = true -> length rests = n -> length (lay_row r rests) = n.
Proof.
  intros Hwf Hr. destruct (wf_row_spec _ _ Hwf) as (Hh & Hs & Hp & Hq & _).
  unfold lay_row, push_row. rewrite !length_zip_with. lia.
Qed.

Lemma length_lay (n : nat) (rows : list Row) (tails : list (list string)) :
  Forall (fun r => wf_row n r = true) rows -> length tails = n ->
  length (lay rows tails) = n.
Proof.
  intros Hwf Ht. induction Hwf as [|r rows Hr _ IH]; simpl; [done|].
  by apply length_lay_row.
Qed.

(** Stream 0 of laid-out records holds four lines per record. *)
Lemma length_hd_lay (n : nat) (rows : list Row) (tails : list (list string)) :
  Forall (fun r => wf_row (S n) r = true) rows -> length tails = S n ->
  length (hd [] (lay rows tails)) = (4 * length rows + length (hd [] tails))%nat.
Proof.
  intros Hwf Ht. induction Hwf as [|r rows Hr Hrows IH]; simpl; [done|].
  destruct (wf_row_spec _ _ Hr) as (Hh & Hs & Hp & Hq & _).
  pose proof (length_lay _ _ _ Hrows Ht) as Hl.
  unfold lay_row.
  destruct (hdr r) as [|h hs]; [done|]. destruct (sq r) as [|s ss]; [done|].
  destruct (sep r) as [|p ps]; [done|]. destruct (qual r) as [|q qs]; [done|].
  destruct (lay rows tails) as [|t ts]; [done|].
  simpl in *. lia.
Qed.

(** The turns over a block of whole records, when no limit is set. *)
Lemma run_rows (n : nat) (rows : list Row) :
  forall (tails : list (list string)) (k inc exc : Z) (en : bool) (nm : string)
         (sqs : list string) (w : list (handle * string)) (fuel : nat),
  Forall (fun r => wf_row (S n) r = true) rows ->
  length tails = S n ->
  length sqs = S n ->
  (Tab args = false -> length outputs = S n) ->
  Limit args <= 0 ->
  0 <= k -> 4 * (k + Z.of_nat (length rows)) < 2 ^ 63 ->
  0 <= inc <= k -> 0 <= exc <= k ->
  exists (en' : bool) (nm' : string) (sqs' : list string),
    length sqs' = S n
    /\ run args filter outputs wr_ok (4 * length rows + fuel)
         (mkState (lay rows tails) (4 * k) inc exc en nm sqs w)
       = run args filter outputs wr_ok fuel
           (mkState tails (4 * (k + Z.of_nat (length rows)))
              (inc + Z.of_nat (length (List.filter row_selected rows)))
              (exc + Z.of_nat (length (List.filter (fun r => negb (row_selected r)) rows)))
              en' nm' sqs' (w ++ flat_map record_output rows)).
Proof.
  induction rows as [|r rows IH];
    intros tails k inc exc en nm sqs w fuel Hwf Ht Hs Hout Hlim Hk Hmax Hinc Hexc.
  - exists en, nm, sqs. split; [done|]. simpl.
    rewrite app_nil_r, !Z.add_0_r. done.
  - apply Forall_cons in Hwf as [Hr Hrows].
    assert (Hnolimit : forall z, limit_reached z = false).
    { intros z. unfold Rows.limit_reached. lia. }
    replace (4 * length (r :: rows) + fuel)%nat
      with (4 + (4 * length rows + fuel))%nat by (simpl; lia).
    simpl lay.
    rewrite (run_record n r (lay rows tails));
      [|done|by apply length_lay|done|done|simpl length in Hmax; lia|lia|lia|done|done].
    replace (4 * k + 4) with (4 * (k + 1)) by lia.
    destruct (IH tails (k + 1)
                (if row_selected r then inc + 1 else inc)
                (if row_selected r then exc else exc + 1)
                (row_selected r) (name_of r) (sq r) (w ++ record_output r) fuel)
      as (en' & nm' & sqs' & Hlen & Hrun);
      [done|done|by destruct (wf_row_spec _ _ Hr) as (_ & ? & _)|done|done|lia
      |simpl length in Hmax; lia|destruct (row_selected r); lia
      |destruct (row_selected r); lia|].
    exists en', nm', sqs'. split; [done|]. rewrite Hrun. do 2 f_equal.
    + simpl length. lia.
    + simpl. destruct (row_selected r); simpl; lia.
    + simpl. destruct (row_selected r); simpl; lia.
    + simpl. by rewrite <- app_assoc.
Qed.

(** A turn that finds stream 0 exhausted returns [nil] and changes nothing. *)
Lemma iteration_eof (st : state) (zs : list (list string)) :
  inputScanners st = [] :: zs -> iteration args filter outputs wr_ok st = Stop ReturnNil st.
Proof.
  intros H. unfold iteration, len_fq. rewrite H. simpl.
  unfold stream_step, Scan. rewrite H. done.
Qed.

(** A turn at a header position whose stream-0 line lacks the sentinel
    returns the format error, nothing written. *)
Lemma iteration_bad_header (l : string) (r : list string) (zs : list (list string))
      (ln inc exc : Z) (en : bool) (nm : string) (sqs : list string)
      (w : list (handle * string)) :
  Z.rem ln 4 = 0 ->
  HasPrefix l "@" = false ->
  iteration args filter outputs wr_ok (mkState ((l :: r) :: zs) ln inc exc en nm sqs w)
  = Stop (ReturnErr (HeaderExpected ln l)) (mkState (r :: zs) ln inc exc en nm sqs w).
Proof.
  intros Hpos Hpre. unfold iteration, len_fq. simpl.
  unfold stream_step, Scan. simpl. unfold on_header. simpl.
  rewrite Hpos, Hpre. done.
Qed.

(** The loop function on laid-out records: after the records, the loop goes
    on with what follows them. *)
Lemma filter_streams_rows (n : nat) (rows : list Row) (tails : list (list string)) :
  Forall (fun r => wf_row (S n) r = true) rows ->
  length tails = S n ->
  (Tab args = false -> length outputs = S n) ->
  Limit args <= 0 ->
  4 * Z.of_nat (length rows) < 2 ^ 63 ->
  exists (en' : bool) (nm' : string) (sqs' : list string),
    filter_streams args filter outputs wr_ok (lay rows tails)
    = run args filter outputs wr_ok (S (length (hd [] tails)))
        (mkState tails (4 * Z.of_nat (length rows))
           (Z.of_nat (length (List.filter row_selected rows)))
           (Z.of_nat (length (List.filter (fun r => negb (row_selected r)) rows)))
           en' nm' sqs' (flat_map record_output rows)).
Proof.
  intros Hwf Ht Hout Hlim Hmax.
  unfold filter_streams, init.
  rewrite (length_hd_lay n), (length_lay (S n)) by done.
  destruct (run_rows n rows tails 0 0 0 (if Invert args then true else false) ""
              (replicate (S n) "") [] (S (length (hd [] tails))))
    as (en' & nm' & sqs' & _ & Hrun);
    [done|done|by rewrite length_replicate|done|done|lia|lia|lia|lia|].
  exists en', nm', sqs'.
  replace (S (4 * length rows + length (hd [] tails)))
    with (4 * length rows + S (length (hd [] tails)))%nat by lia.
  change (4 * 0) with 0 in Hrun. rewrite Hrun. done.
Qed.


(** [cut] along the included records. *)
Lemma cut_stop {A : Type} (inc : Z) (x : A) (l : list A) :
  limit_reached inc = false -> limit_reached (inc + 1) = true -> cut inc (x :: l) = [x].
Proof.
  unfold Rows.limit_reached, Rows.cut. intros H0 H1.
  destruct (Limit args >? 0) eqn:E; [|done].
  replace (Z.to_nat (Limit args - inc)) with 1%nat by lia. done.
Qed.

Lemma cut_more {A : Type} (inc : Z) (x : A) (l : list A) :
  limit_reached (inc + 1) = false -> cut inc (x :: l) = x :: cut (inc + 1) l.
Proof.
  unfold Rows.limit_reached, Rows.cut. intros H1.
  destruct (Limit args >? 0) eqn:E; [|done].
  replace (Z.to_nat (Limit args - inc)) with (S (Z.to_nat (Limit args - (inc + 1)))) by lia.
  done.
Qed.

Lemma cut_nil {A : Type} (inc : Z) : cut inc ([] : list A) = [].
Proof. unfold Rows.cut. by destruct (Limit args >? 0), (Z.to_nat (Limit args - inc)). Qed.

(** Tabular mode over whole records, with or without a limit: one line per
    included record, up to the limit. *)
Lemma run_rows_tab (n : nat) (rows : list Row) :
  forall (tails : list (list string)) (k inc exc : Z) (en : bool) (nm : string)
         (sqs : list string) (w : list (handle * string)) (fuel : nat),
  Tab args = true ->
  Forall (fun r => wf_row (S n) r = true) rows ->
  length tails = S n ->
  hd [] tails = [] ->
  length sqs = S n ->
  0 <= k -> 4 * (k + Z.of_nat (length rows)) < 2 ^ 63 ->
  0 <= inc <= k -> 0 <= exc <= k ->
  limit_reached inc = false ->
  exists st',
    run args filter outputs wr_ok (4 * length rows + S fuel)
      (mkState (lay rows tails) (4 * k) inc exc en nm sqs w)
    = Some (ReturnNil, st')
    /\ written st' = w ++ map tab_record (cut inc (List.filter row_selected rows))
    /\ included st'
       = inc + Z.of_nat (length (cut inc (List.filter row_selected rows))).
Proof.
  induction rows as [|r rows IH];
    intros tails k inc exc en nm sqs w fuel Htab Hwf Ht Hend Hs Hk Hmax Hinc Hexc Hlim.
  - destruct tails as [|t0 zs]; [done|]. simpl in Hend. subst t0.
    cbn [length lay foldr Nat.mul Nat.add run]. erewrite iteration_eof by done.
    eexists. split; [done|]. cbn [List.filter written included].
    rewrite cut_nil. simpl. rewrite app_nil_r. split; [done|lia].
  - apply Forall_cons in Hwf as [Hr Hrows].
    assert (Hout : Tab args = false -> length outputs = S n) by congruence.
    pose proof (length_lay _ _ _ Hrows Ht) as Hlay.
    simpl length in Hmax. cbn [lay foldr List.filter]. fold (lay rows tails).
    destruct (limit_reached (if row_selected r then inc + 1 else inc)) eqn:Hlim1.
    + destruct (row_selected r) eqn:Hd; [|congruence].
      replace (4 * length (r :: rows) + S fuel)%nat
        with (S (S (4 * length rows + S (S (S fuel)))))%nat by (simpl; lia).
      rewrite (run_record_half n r (lay rows tails)); try done; try lia.
      cbn zeta. unfold row_selected in Hd |- *. rewrite Hd, Hlim1.
      eexists. split; [done|]. cbn [written included].
      rewrite (cut_stop inc) by done.
      unfold Rows.row_output. rewrite Htab. simpl. split; [done|lia].
    + replace (4 * length (r :: rows) + S fuel)%nat
        with (4 + (4 * length rows + S fuel))%nat by (simpl; lia).
      rewrite (run_record n r (lay rows tails)); try done; try lia.
      replace (4 * k + 4) with (4 * (k + 1)) by lia.
      destruct (IH tails (k + 1)
                  (if row_selected r then inc + 1 else inc)
                  (if row_selected r then exc else exc + 1)
                  (row_selected r) (name_of r) (sq r) (w ++ record_output r) fuel)
        as (st' & Hrun & Hw & Hi); try done; try lia.
      { by destruct (wf_row_spec _ _ Hr) as (_ & ? & _). }
      { destruct (row_selected r); lia. }
      { destruct (row_selected r); lia. }
      exists st'. split; [done|]. rewrite Hw, Hi.
      unfold Rows.record_output, Rows.record_lines. rewrite Htab.
      destruct (row_selected r) eqn:Hd.
      * rewrite (cut_more inc) by done. simpl. rewrite <- app_assoc. split; [done|lia].
      * by rewrite app_nil_r.
Qed.

End Rows.

Lemma lay_single (recs : list Read) :
  lay (map read_row recs) [[]] = [flat_map read_lines recs].
Proof.
  induction recs as [|rd recs IH]; simpl; [done|]. by rewrite IH.
Qed.

Lemma flat_map_map {A B C : Type} (f : B -> list C) (g : A -> B) (l : list A) :
  flat_map f (map g l) = flat_map (fun x => f (g x)) l.
Proof. induction l as [|x l IH]; simpl; [done|]. by rewrite IH. Qed.

(** In per-stream mode a record of a single stream is written as its four
    lines, each with its newline, on output 0. *)
Lemma record_lines_single (args : Args) (o : handle) (rd : Read) :
  Tab args = false ->
  record_lines args [o] (read_row rd)
  = map (fun l => (o, l +:+ newline)) (read_lines rd).
Proof. intros Ht. unfold record_lines. rewrite Ht. done. Qed.



(** *** Arbitrary inputs *)

(** Closed form of [sequence_lines]. *)
Lemma sequence_lines_div (c : nat) : sequence_lines c = (Z.of_nat c + 2) / 4.
Proof.
  unfold sequence_lines. induction c as [|c IH]; [done|].
  rewrite seq_S, List.filter_app, length_app, Nat2Z.inj_add, IH.
  cbn [List.filter Nat.add].
  pose proof (Nat2Z.inj_mod c 4) as Hm. change (Z.of_nat 4) with 4 in Hm.
  destruct (c mod 4 =? 1)%nat eqn:E; cbn [length].
  - apply Nat.eqb_eq in E. rewrite E in Hm. Z.div_mod_to_equations. lia.
  - apply Nat.eqb_neq in E. assert (Z.of_nat (c mod 4)%nat <> 1) by lia.
    rewrite Hm in *. Z.div_mod_to_equations. lia.
Qed.

Section General.
Variable args : Args.
Variable filter : gmap string bool.
Variable outputs : list handle.
Variable wr_ok : nat -> bool.

Local Arguments on_sequence : simpl never.
Local Arguments emit : simpl never.

Lemma frame_refl (st : state) : frame st st.
Proof. by repeat split. Qed.

Lemma frame_trans (a b c : state) : frame a b -> frame b c -> frame a c.
Proof. unfold frame. intros. intuition congruence. Qed.

Lemma hd_insert_S {A} (d : A) (i : nat) (x : A) (l : list A) :
  hd d (<[S i := x]> l) = hd d l.
Proof. by destruct l. Qed.

Lemma on_header_other_state (i : nat) (l : string) (st : state) :
  (0 < i)%nat -> flow_state (on_header args filter i l st) = st.
Proof.
  intros Hi. destruct i as [|i]; [lia|]. unfold on_header.
  by repeat case_match.
Qed.

Lemma on_sequence_other_frame (i : nat) (l : string) (st : state) :
  (0 < i)%nat -> frame st (flow_state (on_sequence i l st)).
Proof.
  intros Hi. destruct i as [|i]; [lia|]. unfold on_sequence.
  repeat case_match; unfold frame, len_fq; simpl; rewrite ?length_insert;
    by repeat split.
Qed.

Lemma emit_frame (i : nat) (l : string) (st : state) :
  frame st (flow_state (emit args outputs wr_ok i l st)).
Proof.
  unfold emit. repeat case_match; unfold frame, len_fq; simpl; by repeat split.
Qed.

Lemma stream_step_frame (i : nat) (st : state) :
  (0 < i)%nat -> frame st (flow_state (stream_step args filter outputs wr_ok i st)).
Proof.
  intros Hi. unfold stream_step, Scan.
  destruct (inputScanners st !! i) as [[|l rest]|] eqn:E; simpl;
    [case_match; apply frame_refl| |apply frame_refl].
  set (st1 := set_inputScanners (<[i:=rest]> (inputScanners st)) st).
  assert (Hf : frame st st1).
  { destruct i as [|i]; [lia|]. subst st1. unfold frame, len_fq. simpl.
    rewrite hd_insert_S, length_insert. by repeat split. }
  pose proof (on_header_other_state i l st1 Hi) as Hh.
  destruct (on_header args filter i l st1) as [st2|x st2]; simpl in Hh; subst st2;
    [|done].
  pose proof (on_sequence_other_frame i l st1 Hi) as Hq.
  destruct (on_sequence i l st1) as [st3|x st3]; simpl in Hq;
    [|by eapply frame_trans].
  eapply frame_trans; [done|]. eapply frame_trans; [done|]. apply emit_frame.
Qed.

Lemma for_streams_frame (n : nat) :
  forall (i : nat) (st : state),
  (0 < i)%nat -> frame st (flow_state (for_streams args filter outputs wr_ok n i st)).
Proof.
  induction n as [|n IH]; intros i st Hi; simpl; [apply frame_refl|].
  pose proof (stream_step_frame i st Hi) as Hs.
  destruct (stream_step args filter outputs wr_ok i st) as [st1|x st1]; simpl in *;
    [|done].
  eapply frame_trans; [done|]. apply IH. lia.
Qed.

(** [counted] only looks at the fields of the frame. *)
Lemma counted_frame (L : nat) (c : Z) (st st' : state) :
  frame st st' -> counted L c st -> counted L c st'.
Proof.
  unfold frame, counted. intros (?&?&?&?&?&Hhd&?&?) (?&?&?&?&?&?&?).
  rewrite Hhd. repeat split; try congruence; lia.
Qed.

(** The turn on stream 0 takes one line off it and counts a sequence line. *)
Lemma stream_step_first_counted (L : nat) (st : state) :
  Z.of_nat L < 2 ^ 63 ->
  counted L (line_num st) st ->
  match stream_step args filter outputs wr_ok 0 st with
  | Next st' => counted L (line_num st + 1) st' /\ line_num st' = line_num st
  | Stop x st' => exists c, counted L c st'
  end.
Proof.
  intros HL Hc. destruct st as [sc ln inc exc en nm sq w].
  destruct Hc as (Hlen & Hln & Hinc & Hexc & Hsum & Hn & Hsq).
  unfold len_fq in Hn, Hsq. simpl in *.
  destruct sc as [|[|l r] zs]; [simpl in Hn; lia| |].
  - unfold stream_step, Scan. simpl. exists ln. by repeat split.
  - unfold stream_step, Scan. simpl in *.
    assert (Hrem : Z.rem ln 4 = ln mod 4) by (apply rem4_nonneg; lia).
    assert (Hmid : forall en' nm',
               exists st3,
                 on_sequence 0 l (mkState (r :: zs) ln inc exc en' nm' sq w) = Next st3
                 /\ counted L (ln + 1) st3 /\ line_num st3 = ln).
    { intros en' nm'. rewrite on_sequence_first by lia. eexists. split; [done|].
      split; [|done]. unfold counted, len_fq. simpl. rewrite Hrem.
      destruct (ln mod 4 =? 1) eqn:E1; destruct en'; simpl;
        rewrite ?int_incr_in_range by (Z.div_mod_to_equations; lia);
        rewrite ?length_insert;
        repeat split; try lia; Z.div_mod_to_equations; lia. }
    assert (Hemit : forall st1,
               counted L (ln + 1) st1 -> line_num st1 = ln ->
               match emit args outputs wr_ok 0 l st1 with
               | Next st' => counted L (ln + 1) st' /\ line_num st' = ln
               | Stop _ st' => exists c, counted L c st'
               end).
    { intros st1 H1 H2. pose proof (emit_frame 0 l st1) as Hf.
      destruct (emit args outputs wr_ok 0 l st1) as [st'|x st']; simpl in Hf.
      - split; [by eapply counted_frame|]. destruct Hf as (-> & _). done.
      - exists (ln + 1). by eapply counted_frame. }
    assert (Hstop : ln mod 4 = 0 ->
               counted L (ln + 1) (mkState (r :: zs) ln inc exc en nm sq w)).
    { intros H0. unfold counted, len_fq. simpl.
      repeat split; try lia; Z.div_mod_to_equations; lia. }
    unfold on_header, set_inputScanners. simpl. rewrite Hrem.
    destruct (ln mod 4 =? 0) eqn:E0.
    + destruct (HasPrefix l "@"); [|exists (ln + 1); apply Hstop; lia].
      destruct (slice_from_1 l) as [nm0|]; [|exists (ln + 1); apply Hstop; lia].
      destruct (if ShortName args then first_field nm0 else Value nm0) as [nm'|];
        [|exists (ln + 1); apply Hstop; lia].
      unfold set_decision. simpl.
      destruct (Hmid (if Invert args then negb (NameIndex.member filter nm')
                      else NameIndex.member filter nm') nm') as (st3 & -> & ? & ?).
      by apply Hemit.
    + destruct (Hmid en nm) as (st3 & -> & ? & ?). by apply Hemit.
Qed.

Lemma iteration_counted (L : nat) (st : state) :
  Z.of_nat L < 2 ^ 63 ->
  counted L (line_num st) st ->
  match iteration args filter outputs wr_ok st with
  | Next st' =>
      counted L (line_num st') st'
      /\ (length (hd [] (inputScanners st')) < length (hd [] (inputScanners st)))%nat
  | Stop x st' => exists c, counted L c st'
  end.
Proof.
  intros HL Hc. unfold iteration.
  assert (Hn : (0 < len_fq st)%nat) by apply Hc.
  destruct (len_fq st) as [|m]; [lia|]. simpl for_streams.
  pose proof (stream_step_first_counted L st HL Hc) as H0.
  destruct (stream_step args filter outputs wr_ok 0 st) as [st1|x st1]; [|done].
  destruct H0 as [Hc1 Hl1].
  pose proof (for_streams_frame m 1 st1 ltac:(lia)) as Hf.
  destruct (for_streams args filter outputs wr_ok m 1 st1) as [st2|x st2]; simpl in Hf.
  - pose proof (counted_frame _ _ _ _ Hf Hc1) as Hc2.
    assert (Hl2 : line_num st2 = line_num st) by (destruct Hf as (-> & _); done).
    assert (Hincr : int_incr (line_num st2) = line_num st + 1).
    { rewrite Hl2. apply int_incr_in_range. destruct Hc as (?&?&_), Hc1 as (?&_). lia. }
    assert (Hc3 : counted L (line_num st + 1)
                    (set_line_num (int_incr (line_num st2)) st2)).
    { destruct Hc2 as (?&?&?&?&?&?&?). unfold counted, len_fq in *. simpl.
      repeat split; done. }
    assert (Hlt : (length (hd [] (inputScanners st2))
                   < length (hd [] (inputScanners st)))%nat).
    { destruct Hc as (?&_), Hc2 as (?&_). lia. }
    cbv zeta. destruct ((Limit args >? 0) && _).
    + by exists (line_num st + 1).
    + simpl. rewrite Hincr. done.
  - exists (line_num st + 1). by eapply counted_frame.
Qed.

(** The loop returns within one turn more than stream 0 has lines. *)
Lemma run_counted (L : nat) (fuel : nat) :
  forall st : state,
  Z.of_nat L < 2 ^ 63 ->
  counted L (line_num st) st ->
  (length (hd [] (inputScanners st)) < fuel)%nat ->
  exists x st', run args filter outputs wr_ok fuel st = Some (x, st')
    /\ exists c, counted L c st'.
Proof.
  induction fuel as [|fuel IH]; intros st HL Hc Hfuel; [lia|].
  simpl. pose proof (iteration_counted L st HL Hc) as Hi.
  destruct (iteration args filter outputs wr_ok st) as [st'|x st'].
  - destruct Hi as [Hc' Hlt]. apply IH; [done|done|lia].
  - by exists x, st'.
Qed.

Lemma init_counted (inv : bool) (streams : list (list string)) :
  streams <> [] -> counted (length (hd [] streams)) 0 (init inv streams).
Proof.
  intros Hne. unfold counted, init, len_fq. simpl.
  destruct streams; [done|]. simpl. rewrite length_replicate. repeat split; lia.
Qed.


(** The loop function returns on every input with at least one stream. *)
Lemma filter_streams_counted (streams : list (list string)) :
  streams <> [] ->
  Z.of_nat (length (hd [] streams)) < 2 ^ 63 ->
  exists x st',
    filter_streams args filter outputs wr_ok streams = Some (x, st')
    /\ exists c, counted (length (hd [] streams)) c st'.
Proof.
  intros Hne HL. unfold filter_streams.
  apply run_counted; [done|by apply init_counted|simpl; lia].
Qed.

(** C6 (amended): the loop function returns, and the two counters then add
    up to the number of sequence lines (positions 1 modulo 4) among the lines
    taken off stream 0. *)
Theorem counters_count_sequence_lines (streams : list (list string)) :
  streams <> [] ->
  Z.of_nat (length (hd [] streams)) < 2 ^ 63 ->
  exists x st',
    filter_streams args filter outputs wr_ok streams = Some (x, st')
    /\ (length (hd [] (inputScanners st')) <= length (hd [] streams))%nat
    /\ included st' + excluded st'
       = sequence_lines (length (hd [] streams) - length (hd [] (inputScanners st'))).
Proof.
  intros Hne HL.
  destruct (filter_streams_counted streams Hne HL) as (x & st' & Hrun & c & Hc).
  exists x, st'. split; [done|].
  destruct Hc as (Hlen & Hc0 & _ & _ & Hsum & _).
  split; [lia|]. rewrite sequence_lines_div, Hsum. do 2 f_equal. lia.
Qed.

(** A turn on a stream that has lines leaves the other scanners alone. *)
Lemma stream_step_lookup (j i : nat) (st st' : state) :
  stream_step args filter outputs wr_ok j st = Next st' ->
  i <> j -> inputScanners st' !! i = inputScanners st !! i.
Proof.
  unfold stream_step, Scan. intros H Hne.
  destruct (inputScanners st !! j) as [[|l rest]|] eqn:E; [by case_match| |done].
  set (st1 := set_inputScanners (<[j:=rest]> (inputScanners st)) st) in *.
  assert (H1 : inputScanners st1 !! i = inputScanners st !! i).
  { subst st1. simpl. by rewrite list_lookup_insert_ne. }
  assert (Hh : forall st2, on_header args filter j l st1 = Next st2 ->
                           inputScanners st2 = inputScanners st1).
  { unfold on_header. intros st2 H2. repeat case_match; simplify_eq; done. }
  destruct (on_header args filter j l st1) as [st2|] eqn:E2; [|done].
  rewrite <- H1, <- (Hh st2 eq_refl).
  assert (Hs : forall st3, on_sequence j l st2 = Next st3 ->
                           inputScanners st3 = inputScanners st2).
  { unfold on_sequence. intros st3 H3. repeat case_match; simplify_eq; done. }
  destruct (on_sequence j l st2) as [st3|] eqn:E3; [|done].
  rewrite <- (Hs st3 eq_refl).
  unfold emit in H. repeat case_match; simplify_eq; done.
Qed.

(** What a reported desynchronization means. *)
Lemma stream_step_desync (j i : nat) (st st' : state) :
  stream_step args filter outputs wr_ok j st = Stop (ReturnErr (ScannerExpected i)) st' ->
  i = j /\ (0 < i)%nat /\ inputScanners st !! i = Some [] /\ st' = st.
Proof.
  unfold stream_step, Scan. intros H.
  destruct (inputScanners st !! j) as [[|l rest]|] eqn:E; [| |done].
  - destruct j; simpl in H; [done|]. simplify_eq. repeat split; [lia|done].
  - exfalso. revert H. unfold on_header, on_sequence, emit.
    repeat case_match; intros; simplify_eq.
Qed.

Lemma for_streams_desync (n : nat) :
  forall (j i : nat) (st st' : state),
  for_streams args filter outputs wr_ok n j st = Stop (ReturnErr (ScannerExpected i)) st' ->
  (j <= i)%nat /\ (0 < i)%nat /\ inputScanners st !! i = Some [].
Proof.
  induction n as [|n IH]; intros j i st st' H; simpl in H; [done|].
  destruct (stream_step args filter outputs wr_ok j st) as [st1|x st1] eqn:E.
  - destruct (IH _ _ _ _ H) as (Hle & Hpos & Hlook).
    repeat split; [lia|done|]. rewrite <- Hlook. symmetry.
    eapply stream_step_lookup; [done|lia].
  - simplify_eq. apply stream_step_desync in E as (-> & ? & ? & _). by repeat split.
Qed.

(** The inner loop can be cut at any stream. *)
Lemma for_streams_app (a : nat) :
  forall (b j : nat) (st : state),
  for_streams args filter outputs wr_ok (a + b) j st
  = match for_streams args filter outputs wr_ok a j st with
    | Next st1 => for_streams args filter outputs wr_ok b (j + a) st1
    | Stop x st1 => Stop x st1
    end.
Proof.
  induction a as [|a IH]; intros b j st; simpl.
  - by rewrite Nat.add_0_r.
  - destruct (stream_step args filter outputs wr_ok j st) as [st1|x st1]; [|done].
    rewrite IH. by replace (j + S a)%nat with (S j + a)%nat by lia.
Qed.

(** The streams the inner loop has not reached yet are as they were. *)
Lemma for_streams_lookup (a : nat) :
  forall (j i : nat) (st st1 : state),
  for_streams args filter outputs wr_ok a j st = Next st1 ->
  (j + a <= i)%nat -> inputScanners st1 !! i = inputScanners st !! i.
Proof.
  induction a as [|a IH]; intros j i st st1 H Hi; simpl in H; [by simplify_eq|].
  destruct (stream_step args filter outputs wr_ok j st) as [st0|] eqn:E; [|done].
  rewrite (IH (S j) i st0 st1 H) by lia.
  eapply stream_step_lookup; [done|lia].
Qed.

(** C4: a turn that finds stream 0 exhausted returns [nil], whatever the
    other streams hold; the inner loop that reaches an exhausted stream
    [i > 0] returns the desynchronization error carrying [i], and so does the
    turn in which the streams before [i] got through; and a turn reports that
    error only for an exhausted stream [i > 0], stream 0 having delivered its
    line in that turn. *)
Theorem end_of_input_and_desync (st : state) :
  (forall zs, inputScanners st = [] :: zs ->
     iteration args filter outputs wr_ok st = Stop ReturnNil st)
  /\ (forall (i n : nat), (0 < i)%nat -> inputScanners st !! i = Some [] ->
        for_streams args filter outputs wr_ok (S n) i st
        = Stop (ReturnErr (ScannerExpected i)) st)
  /\ (forall (i : nat) (st1 : state),
        (0 < i)%nat -> inputScanners st !! i = Some [] ->
        for_streams args filter outputs wr_ok i 0 st = Next st1 ->
        iteration args filter outputs wr_ok st
        = Stop (ReturnErr (ScannerExpected i)) st1)
  /\ (forall (i : nat) (st' : state),
        iteration args filter outputs wr_ok st
        = Stop (ReturnErr (ScannerExpected i)) st' ->
        (0 < i)%nat /\ inputScanners st !! i = Some []
        /\ exists l rest, inputScanners st !! 0%nat = Some (l :: rest)).
Proof.
  assert (Hreach : forall (i n : nat) (s : state),
            (0 < i)%nat -> inputScanners s !! i = Some [] ->
            for_streams args filter outputs wr_ok (S n) i s
            = Stop (ReturnErr (ScannerExpected i)) s).
  { intros i n s Hi H. simpl. unfold stream_step, Scan. rewrite H.
    destruct i; [lia|done]. }
  split; [|split; [|split]].
  - intros zs H. unfold iteration, len_fq. rewrite H. simpl.
    unfold stream_step, Scan. by rewrite H.
  - intros i n Hi H. by apply Hreach.
  - intros i st1 Hi H Hpre. unfold iteration.
    pose proof (lookup_lt_Some _ _ _ H) as Hlt. fold (len_fq st) in Hlt.
    replace (len_fq st) with (i + S (len_fq st - S i))%nat by lia.
    rewrite for_streams_app, Hpre. simpl Nat.add.
    rewrite Hreach; [done|done|].
    rewrite <- H. eapply for_streams_lookup; [done|lia].
  - intros i st' H. unfold iteration in H.
    destruct (for_streams args filter outputs wr_ok (len_fq st) 0 st) eqn:E;
      [by case_match|]. simplify_eq.
    destruct (for_streams_desync _ _ _ _ _ E) as (_ & Hpos & Hlook).
    repeat split; [done|done|].
    destruct (len_fq st) as [|m]; [done|]. simpl in E.
    unfold stream_step at 1 in E. unfold Scan in E.
    destruct (inputScanners st !! 0%nat) as [[|l rest]|]; [done|by eauto|done].
Qed.

End General.

(** *** Tabular mode *)

Section TabIrrelevant.

Variable args : Args.
Variable filter : gmap string bool.
Variables outputs outputs' : list handle.
Variables wr_ok wr_ok' : nat -> bool.
Hypothesis tab_mode : Tab args = true.

(** In tabular mode neither [outputs] nor the fate of writes matters. *)
Lemma emit_tab (i : nat) (l : string) (st : state) :
  emit args outputs wr_ok i l st = emit args outputs' wr_ok' i l st.
Proof. unfold emit. by rewrite tab_mode. Qed.

Lemma stream_step_tab (i : nat) (st : state) :
  stream_step args filter outputs wr_ok i st
  = stream_step args filter outputs' wr_ok' i st.
Proof.
  unfold stream_step. destruct (Scan i st) as [[[l st1]|]|]; [|done|done].
  destruct (on_header args filter i l st1) as [st2|]; [|done].
  destruct (on_sequence i l st2); [apply emit_tab|done].
Qed.

Lemma for_streams_tab (n : nat) :
  forall (i : nat) (st : state),
  for_streams args filter outputs wr_ok n i st
  = for_streams args filter outputs' wr_ok' n i st.
Proof.
  induction n as [|n IH]; intros i st; simpl; [done|].
  rewrite stream_step_tab.
  destruct (stream_step args filter outputs' wr_ok' i st); [apply IH|done].
Qed.

Lemma run_tab (fuel : nat) :
  forall st : state,
  run args filter outputs wr_ok fuel st = run args filter outputs' wr_ok' fuel st.
Proof.
  induction fuel as [|fuel IH]; intros st; simpl; [done|].
  unfold iteration. rewrite for_streams_tab.
  destruct (for_streams args filter outputs' wr_ok' (len_fq st) 0 st); [|done].
  cbv zeta. by destruct (_ && _).
Qed.

End TabIrrelevant.

Section TabCount.
Variable args : Args.
Variable filter : gmap string bool.
Variable outputs : list handle.
Variable wr_ok : nat -> bool.
Hypothesis tab_mode : Tab args = true.

(** What a turn of the inner loop does to the counters and to the log in
    tabular mode. *)
Lemma stream_step_tab_effect (i : nat) (st st' : state) :
  stream_step args filter outputs wr_ok i st = Next st' ->
  line_num st' = line_num st /\ len_fq st' = len_fq st /\ (i < len_fq st)%nat
  /\ ((Z.rem (line_num st) 4 =? 1) = true \/ (0 < i)%nat -> enable st' = enable st)
  /\ included st'
     = (if (i =? 0)%nat && (Z.rem (line_num st) 4 =? 1) && enable st'
        then int_incr (included st) else included st)
  /\ Z.of_nat (length (written st'))
     = Z.of_nat (length (written st))
       + (if enable st' && (i + 1 =? len_fq st)%nat && (Z.rem (line_num st) 4 =? 1)
          then 1 else 0).
Proof.
  destruct st as [sc ln inc exc en nm sq w].
  unfold stream_step, Scan, len_fq. simpl.
  destruct (sc !! i) as [[|l rest]|] eqn:E; [by case_match| |done].
  apply lookup_lt_Some in E.
  unfold on_header, on_sequence, emit, len_fq. simpl. rewrite tab_mode.
  intros H.
  destruct (Z.rem ln 4 =? 0) eqn:E0; destruct (Z.rem ln 4 =? 1) eqn:E1; try lia;
    repeat (case_match; simplify_eq; simpl in *);
    rewrite ?length_insert, ?length_app in *; simpl;
    repeat split; try done; try lia; try (intros [?|?]; done || lia).
  all: repeat match goal with
       | H : (_ && _) = true |- _ => apply andb_true_iff in H as [? ?]
       | H : (_ && _) = false |- _ => apply andb_false_iff in H as [?|?]
       | H : (_ =? _)%nat = true |- _ => apply Nat.eqb_eq in H
       | H : (_ =? _)%nat = false |- _ => apply Nat.eqb_neq in H
       end; try congruence; try lia; try (intros [?|?]; congruence || lia).
Qed.

Lemma stream_step_tab_counted_first (st st' : state) :
  stream_step args filter outputs wr_ok 0 st = Next st' ->
  0 <= included st < 2 ^ 63 - 1 ->
  tab_counted 0 st -> tab_counted 1 st'.
Proof.
  intros H Hr Hc.
  destruct (stream_step_tab_effect 0 st st' H) as (Hln & Hlen & Hi & Hen & Hinc & Hw).
  unfold tab_counted, tab_pending in *. rewrite Hw, Hinc, Hln, Hlen.
  clear Hw Hinc. rewrite andb_false_r in Hc. simpl in Hc |- *.
  destruct (Z.rem (line_num st) 4 =? 1) eqn:E1.
  - rewrite Hen by auto. rewrite !andb_true_r.
    destruct (enable st); simpl; [|lia].
    rewrite int_incr_in_range by lia.
    destruct (len_fq st) as [|[|m]]; simpl; lia.
  - rewrite !andb_false_r. simpl. lia.
Qed.

Lemma stream_step_tab_counted_other (i : nat) (st st' : state) :
  (0 < i)%nat ->
  stream_step args filter outputs wr_ok i st = Next st' ->
  tab_counted i st -> tab_counted (S i) st'.
Proof.
  intros Hpos H Hc.
  destruct (stream_step_tab_effect i st st' H) as (Hln & Hlen & Hi & Hen & Hinc & Hw).
  unfold tab_counted, tab_pending in *. rewrite Hw, Hinc, Hln, Hlen.
  clear Hw Hinc. rewrite Hen by auto.
  replace (i =? 0)%nat with false by (symmetry; apply Nat.eqb_neq; lia).
  replace (0 <? i)%nat with true in Hc by (symmetry; apply Nat.ltb_lt; lia).
  replace (i <? len_fq st)%nat with true in Hc by (symmetry; apply Nat.ltb_lt; lia).
  simpl. rewrite !andb_true_r in *.
  destruct (enable st), (Z.rem (line_num st) 4 =? 1); cbn [andb] in *; rewrite ?andb_true_r, ?andb_false_r; try lia.
  all: destruct (Nat.eqb_spec (i + 1) (len_fq st)), (Nat.ltb_spec (S i) (len_fq st)); lia.
Qed.

Lemma for_streams_tab_counted (n : nat) :
  forall (i : nat) (st st' : state),
  (0 < i)%nat ->
  for_streams args filter outputs wr_ok n i st = Next st' ->
  tab_counted i st ->
  tab_counted (i + n) st' /\ len_fq st' = len_fq st.
Proof.
  induction n as [|n IH]; intros i st st' Hpos H Hc; simpl in H.
  - simplify_eq. by rewrite Nat.add_0_r.
  - destruct (stream_step args filter outputs wr_ok i st) as [st1|] eqn:E; [|done].
    pose proof (stream_step_tab_counted_other _ _ _ Hpos E Hc) as Hc1.
    destruct (stream_step_tab_effect _ _ _ E) as (_ & Hlen & _).
    destruct (IH (S i) st1 st' ltac:(lia) H Hc1) as [? ?].
    split; [|congruence]. by replace (i + S n)%nat with (S i + n)%nat by lia.
Qed.

(** Only the end of stream 0 makes the inner loop return [nil]. *)
Lemma stream_step_nil (i : nat) (st st' : state) :
  stream_step args filter outputs wr_ok i st = Stop ReturnNil st' -> i = 0%nat /\ st' = st.
Proof.
  unfold stream_step, Scan. intros H.
  destruct (inputScanners st !! i) as [[|l rest]|]; [| |done].
  - destruct i; simpl in H; by simplify_eq.
  - exfalso. revert H. unfold on_header, on_sequence, emit.
    repeat case_match; intros; simplify_eq.
Qed.

Lemma for_streams_nil (n : nat) :
  forall (i : nat) (st st' : state),
  for_streams args filter outputs wr_ok n i st = Stop ReturnNil st' -> i = 0%nat /\ st' = st.
Proof.
  induction n as [|n IH]; intros i st st' H; simpl in H; [done|].
  destruct (stream_step args filter outputs wr_ok i st) as [st1|x st1] eqn:E.
  - apply IH in H as [? _]. lia.
  - simplify_eq. by apply stream_step_nil in E.
Qed.

Lemma iteration_tab_counted (L : nat) (st : state) :
  Z.of_nat L < 2 ^ 63 ->
  counted L (line_num st) st ->
  tab_counted 0 st ->
  match iteration args filter outputs wr_ok st with
  | Next st' | Stop ReturnNil st' => tab_counted 0 st'
  | Stop _ _ => True
  end.
Proof.
  intros HL Hcnt Hc. unfold iteration.
  assert (Hr : 0 <= included st < 2 ^ 63 - 1).
  { destruct Hcnt as (?&?&?&?&?&?). Z.div_mod_to_equations. lia. }
  destruct (for_streams args filter outputs wr_ok (len_fq st) 0 st) as [st1|x st1] eqn:E.
  - assert (Ht : tab_counted (len_fq st1) st1).
    { destruct (len_fq st) as [|m] eqn:Em; simpl in E.
      - simplify_eq. by rewrite Em.
      - destruct (stream_step args filter outputs wr_ok 0 st) as [st0|] eqn:E0; [|done].
        pose proof (stream_step_tab_counted_first _ _ E0 Hr Hc) as Hc0.
        destruct (stream_step_tab_effect _ _ _ E0) as (_ & Hlen0 & _).
        destruct (for_streams_tab_counted m 1 st0 st1 ltac:(lia) E Hc0) as [Hc1 Hlen1].
        rewrite Hlen1, Hlen0, Em. done. }
    assert (Ht0 : forall z, tab_counted 0 (set_line_num z st1)).
    { intros z. unfold tab_counted, tab_pending in *. simpl.
      rewrite andb_false_r. simpl.
      rewrite Nat.ltb_irrefl, andb_false_r in Ht. done. }
    cbv zeta. destruct (_ && _); apply Ht0.
  - destruct x; try done. apply for_streams_nil in E as [_ ->]. done.
Qed.

Lemma run_tab_counted (L : nat) (fuel : nat) :
  forall (st st' : state),
  Z.of_nat L < 2 ^ 63 ->
  counted L (line_num st) st ->
  tab_counted 0 st ->
  run args filter outputs wr_ok fuel st = Some (ReturnNil, st') ->
  tab_counted 0 st'.
Proof.
  induction fuel as [|fuel IH]; intros st st' HL Hcnt Hc H; simpl in H; [done|].
  pose proof (iteration_counted args filter outputs wr_ok L st HL Hcnt) as Hi.
  pose proof (iteration_tab_counted L st HL Hcnt Hc) as Ht.
  destruct (iteration args filter outputs wr_ok st) as [st1|x st1].
  - destruct Hi as [Hcnt1 _]. by eapply IH.
  - by simplify_eq.
Qed.

End TabCount.


(** *** Sample runs *)

Import Samples.

(** C1 (failing input): with [-limit 1] the test of line 286 is made after
    the sequence line of the first match, at line position 2: the loop
    returns with only the header and sequence lines of that record written. *)
Theorem limit_stops_inside_record :
  filter_streams limit_one names_a [StdStream] always_ok
    [read_lines read_a ++ read_lines read_b]
  = Some (ReturnNil,
          {| inputScanners := [["+"; "IIII"; "@b"; "CC"; "+"; "II"]];
             line_num := 2; included := 1; excluded := 0;
             enable := true; name := "a"; sequences := ["ACGT"];
             written := [(StdStream, "@a" +:+ newline);
                         (StdStream, "ACGT" +:+ newline)] |}).
Proof. vm_compute. reflexivity. Qed.


(** C6 (counterexample): stream 0 ends after a sequence line; the record was
    counted although no complete record was read. *)
Lemma truncated_record_is_counted :
  exists st',
    filter_streams reads_names names_a [StdStream] always_ok truncated
    = Some (ReturnNil, st')
    /\ included st' + excluded st' = 1
    /\ complete_records (length (hd [] truncated) - length (hd [] (inputScanners st'))) = 0.
Proof. eexists. repeat split; vm_compute; reflexivity. Qed.






Lemma counters_count_sequence_lines_witness :
  exists x st',
    filter_streams reads_names names_a [StdStream] always_ok truncated = Some (x, st')
    /\ (length (hd [] (inputScanners st')) <= length (hd [] truncated))%nat
    /\ included st' + excluded st'
       = sequence_lines (length (hd [] truncated) - length (hd [] (inputScanners st'))).
Proof.
  apply (counters_count_sequence_lines reads_names names_a [StdStream] always_ok truncated).
  - discriminate.
  - reflexivity.
Defined.

Lemma end_of_input_and_desync_witness :
  iteration reads_names names_a [StdStream; StdStream] always_ok
    (init false [[]; ["@a/2"]])
  = Stop ReturnNil (init false [[]; ["@a/2"]])
  /\ for_streams reads_names names_a [StdStream; StdStream] always_ok 1 1
       (init false [["ACGT"]; []])
     = Stop (ReturnErr (ScannerExpected 1)) (init false [["ACGT"]; []])
  /\ iteration reads_names names_a [StdStream; StdStream] always_ok
       (init false [["@a"]; []])
     = Stop (ReturnErr (ScannerExpected 1))
         {| inputScanners := [[]; []]; line_num := 0; included := 0; excluded := 0;
            enable := true; name := "a"; sequences := [""; ""];
            written := [(StdStream, "@a" +:+ newline)] |}.
Proof.
  split; [|split].
  - apply (proj1 (end_of_input_and_desync reads_names names_a [StdStream; StdStream]
                    always_ok (init false [[]; ["@a/2"]])) [["@a/2"]]).
    reflexivity.
  - apply (proj1 (proj2 (end_of_input_and_desync reads_names names_a
                           [StdStream; StdStream] always_ok
                           (init false [["ACGT"]; []]))) 1%nat 0%nat).
    + lia.
    + reflexivity.
  - apply (proj1 (proj2 (proj2 (end_of_input_and_desync reads_names names_a
                                  [StdStream; StdStream] always_ok
                                  (init false [["@a"]; []]))))).
    + lia.
    + reflexivity.
    + vm_compute. reflexivity.
Defined.

End EngineFacts.

(** ** Names and fields *)

Module FieldsFacts.

Import Words.

Lemma fields_from_nil (s cur : string) :
  fields_from cur s = [] <-> cur = "" /\ blank s = true.
Proof.
  revert cur. induction s as [|c s IH]; intros cur; simpl.
  - destruct cur; (split; [done|]); [done|by intros [? _]].
  - unfold blank in *. simpl. destruct (asciiSpace c); simpl.
    + destruct cur; [apply IH|]. split; [done|]. by intros [? _].
    + rewrite IH. split; [by intros [? _]|by intros [_ ?]].
Qed.

Lemma Fields_nil (s : string) : Fields s = [] <-> blank s = true.
Proof.
  unfold Fields. rewrite fields_from_nil. split; [by intros [_ ?]|done].
Qed.

(** While no white space is met the field grows. *)
Lemma fields_from_word (a tl cur : string) :
  no_space a = true -> field_end tl = true ->
  String.rev_app cur a <> "" ->
  exists rest, fields_from cur (a +:+ tl) = String.rev_app cur a :: rest.
Proof.
  revert cur. induction a as [|c a IH]; intros cur Ha Htl Hne.
  - change ("" +:+ tl) with tl. simpl in Hne |- *.
    destruct tl as [|d tl]; simpl.
    + destruct cur; [done|]. by eexists.
    + simpl in Htl. rewrite Htl. destruct cur; [done|]. by eexists.
  - change (String c a +:+ tl) with (String c (a +:+ tl)). simpl.
    unfold no_space in Ha. simpl in Ha. apply andb_prop in Ha as [Hc Ha].
    apply negb_true_iff in Hc. rewrite Hc. by apply IH.
Qed.




End FieldsFacts.

(** ** Name Index: panics and order *)

Module NameIndexMore.

Import NameIndex NameIndexFacts Words FieldsFacts.

(** The loop returns a map that sends the identifiers to [true] and is the
    initial map elsewhere. *)
Lemma scan_names_lookup (short : bool) (lines names : list string) :
  Forall2 (fun l n => identifier short l = Value n) lines names ->
  forall filter : gmap string bool,
  exists m, scan_names short lines filter = Value m
    /\ forall x, m !! x = if bool_decide (x ∈ names) then Some true else filter !! x.
Proof.
  induction 1 as [|l n lines names Hl _ IH]; intros filter; simpl.
  - exists filter. split; [done|]. intros x.
    rewrite ?bool_decide_eq_false_2 by apply not_elem_of_nil. done.
  - assert (Ha : add_name short l filter = Value (<[n := true]> filter)).
    { unfold add_name, identifier in *. destruct short; [by rewrite Hl|congruence]. }
    rewrite Ha. destruct (IH (<[n := true]> filter)) as (m & Hm & Hkeys).
    exists m. split; [done|]. intros x. rewrite Hkeys.
    destruct (decide (x ∈ names)) as [Hin|Hin].
    + rewrite !bool_decide_eq_true_2; [done|by right|done].
    + rewrite (bool_decide_eq_false_2 _ Hin).
      destruct (decide (n = x)) as [->|Hne].
      * rewrite lookup_insert_eq, bool_decide_eq_true_2; [done|by left].
      * rewrite lookup_insert_ne by done.
        rewrite bool_decide_eq_false_2; [done|]. rewrite elem_of_cons.
        intros [?|?]; [congruence|done].
Qed.

(** Every line that is not blank stands for an identifier. *)
Lemma identifiers_exist (short : bool) (lines : list string) :
  short && existsb blank lines = false ->
  exists names, Forall2 (fun l n => identifier short l = Value n) lines names.
Proof.
  induction lines as [|l lines IH]; intros H; [by exists []|].
  simpl in H. destruct IH as [names Hn].
  { destruct short; [|done]. simpl in *. by apply orb_false_elim in H as [_ ?]. }
  unfold identifier at 1.
  destruct short; [|exists (l :: names); by constructor].
  simpl in H. apply orb_false_elim in H as [Hb _].
  destruct (first_field l) as [n|] eqn:E.
  - exists (n :: names). constructor; [|done]. unfold identifier. done.
  - unfold first_field in E. destruct (Fields l) eqn:Ef; [|done].
    apply Fields_nil in Ef. congruence.
Qed.

Lemma scan_names_panics (lines : list string) :
  forall filter : gmap string bool,
  existsb blank lines = true -> scan_names true lines filter = Panics.
Proof.
  induction lines as [|l lines IH]; intros filter H; [done|]. simpl in *.
  unfold add_name. destruct (first_field l) as [n|] eqn:E; [|done].
  apply IH. destruct (blank l) eqn:Hb; [|done].
  apply Fields_nil in Hb. unfold first_field in E. by rewrite Hb in E.
Qed.


Lemma identifiers_elem (short : bool) (lines names : list string) :
  Forall2 (fun l n => identifier short l = Value n) lines names ->
  forall x, x ∈ names <-> exists l, l ∈ lines /\ identifier short l = Value x.
Proof.
  induction 1 as [|l n lines names Hl _ IH]; intros x.
  - split; [by intros ?%elem_of_nil|]. by intros (l & ?%elem_of_nil & _).
  - rewrite elem_of_cons, IH. split.
    + intros [->|(l0 & ? & ?)]; [exists l|exists l0]; split; try done;
        rewrite elem_of_cons; auto.
    + intros (l0 & [->|?]%elem_of_cons & ?); [left; congruence|right; eauto].
Qed.

Lemma existsb_blank_elem (lines : list string) :
  existsb blank lines = true <-> exists l, l ∈ lines /\ blank l = true.
Proof.
  rewrite existsb_exists. split; intros (l & ? & ?); exists l;
    (split; [by apply list_elem_of_In|done]).
Qed.

(** X4: two name lists with the same lines, in any order and with any
    repetitions, give the same NameSet (or both panic). *)
Theorem build_same_lines (short : bool) (l1 l2 : list string) :
  (forall x, x ∈ l1 <-> x ∈ l2) -> build short l1 = build short l2.
Proof.
  intros Hsame.
  assert (Hb : existsb blank l1 = existsb blank l2).
  { apply eq_true_iff_eq. rewrite !existsb_blank_elem.
    split; intros (l & ? & ?); exists l; (split; [by apply Hsame|done]). }
  destruct (short && existsb blank l1) eqn:E.
  - pose proof E as E2. rewrite Hb in E2.
    apply andb_prop in E as [-> E]. apply andb_prop in E2 as [_ E2].
    unfold build. by rewrite !scan_names_panics.
  - pose proof E as E2. rewrite Hb in E2.
    destruct (identifiers_exist _ _ E) as [n1 H1].
    destruct (identifiers_exist _ _ E2) as [n2 H2].
    destruct (scan_names_lookup _ _ _ H1 ∅) as (m1 & Hm1 & Hk1).
    destruct (scan_names_lookup _ _ _ H2 ∅) as (m2 & Hm2 & Hk2).
    unfold build. rewrite Hm1, Hm2. f_equal. apply map_eq. intros x.
    rewrite Hk1, Hk2.
    assert (Hx : x ∈ n1 <-> x ∈ n2).
    { rewrite (identifiers_elem _ _ _ H1), (identifiers_elem _ _ _ H2).
      split; intros (l & ? & ?); exists l; (split; [by apply Hsame|done]). }
    by rewrite (bool_decide_ext _ _ Hx).
Qed.

Lemma build_same_lines_witness :
  build true ["b 1"; "a"; "b 2"; "a"] = build true ["a"; "b 2"; "b 1"].
Proof.
  apply build_same_lines. intros x. rewrite !elem_of_cons, !elem_of_nil. tauto.
Defined.

End NameIndexMore.

(** ** Startup: handles and failures *)

Module StartupMore.

Import Startup StartupFacts StartupViews.

(** *** Strings: reversal, suffixes *)

Lemma rev_app_app (a b c : string) :
  String.rev_app (a +:+ b) c = String.rev_app b (String.rev_app a c).
Proof.
  revert c. induction a as [|x a IH]; intros c; [done|].
  change (String x a +:+ b) with (String x (a +:+ b)). simpl. apply IH.
Qed.

Lemma rev_app_out (a b : string) :
  String.rev_app a b = String.rev a +:+ b.
Proof.
  unfold String.rev. revert b. induction a as [|x a IH]; intros b; [done|].
  simpl. rewrite (IH (String x b)), (IH (String x "")).
  generalize (String.rev_app a ""). intros r.
  induction r as [|y r IHr]; [done|].
  change (String y r +:+ String x b) with (String y (r +:+ String x b)).
  change ((String y r +:+ String x "") +:+ b) with (String y ((r +:+ String x "") +:+ b)).
  by rewrite IHr.
Qed.

Lemma rev_involutive (a : string) : String.rev (String.rev a) = a.
Proof.
  assert (H : forall a b, String.rev_app (String.rev_app a b) "" = String.rev_app b a).
  { clear. induction a as [|x a IH]; intros b; simpl; [done|by rewrite IH]. }
  unfold String.rev. by rewrite H.
Qed.

Lemma rev_append (a b : string) : String.rev (a +:+ b) = String.rev b +:+ String.rev a.
Proof. unfold String.rev at 1. by rewrite rev_app_app, rev_app_out. Qed.

Lemma append_inj_r (a b c : string) : a +:+ c = b +:+ c -> a = b.
Proof.
  intros H. apply (f_equal String.rev) in H. rewrite !rev_append in H.
  apply (inj _) in H. by rewrite <- (rev_involutive a), H, rev_involutive.
Qed.

Lemma prefix_append (p x y : string) :
  String.prefix p x = true -> String.prefix p (x +:+ y) = true.
Proof.
  revert x. induction p as [|c p IH]; intros x H; [by destruct x, y|].
  destruct x as [|d x]; [done|].
  change (String d x +:+ y) with (String d (x +:+ y)). simpl in *.
  destruct (ascii_dec c d); [by apply IH|done].
Qed.

Lemma HasSuffix_append (a b p : string) :
  HasSuffix b p = true -> HasSuffix (a +:+ b) p = true.
Proof. unfold HasSuffix. rewrite rev_append. apply prefix_append. Qed.

(** Every output name ends in [.gz], and different streams get different
    names. *)
Lemma output_name_gz (prefix : string) (nfq i : nat) :
  HasSuffix (output_name prefix nfq i) ".gz" = true.
Proof.
  unfold output_name. destruct (nfq =? 1)%nat; repeat apply HasSuffix_append; done.
Qed.

Lemma output_name_nonempty (prefix : string) (nfq i : nat) :
  String.eqb (output_name prefix nfq i) "" = false.
Proof.
  unfold output_name. destruct (nfq =? 1)%nat, prefix; done.
Qed.

Lemma output_name_inj (prefix : string) (nfq i j : nat) :
  nfq <> 1%nat -> output_name prefix nfq i = output_name prefix nfq j -> i = j.
Proof.
  intros Hn. unfold output_name.
  replace (nfq =? 1)%nat with false by (symmetry; by apply Nat.eqb_neq).
  intros H. apply (inj _) in H. apply (inj _) in H.
  apply append_inj_r in H. apply (inj _) in H. lia.
Qed.

(** *** The handles startup makes *)

Lemma open_inputs_length (fs : FS) (fq : list string) (evs : list event)
      (ins : list handle) :
  open_inputs fs fq = (evs, Ready ins) -> length ins = length fq.
Proof.
  revert evs ins. induction fq as [|fn rest IH]; simpl; intros evs ins H.
  - by injection H as _ <-.
  - destruct (AmbiReader_Open fs fn) as [ev [h|]]; [|done].
    destruct (open_inputs fs rest) as [evs' [hs|m']] eqn:E; [|done].
    injection H as _ <-. simpl. f_equal. by eapply IH.
Qed.

Lemma AmbiWriter_Open_output (fs : FS) (prefix : string) (nfq i : nat)
      (ev : list event) (h : handle) :
  AmbiWriter_Open fs (output_name prefix nfq i) = (ev, Some h) ->
  h = GzipFile (output_name prefix nfq i).
Proof.
  unfold AmbiWriter_Open. rewrite output_name_nonempty, output_name_gz.
  destruct (can_create fs _); [|done]. by injection 1 as _ <-.
Qed.

Lemma open_outputs_handles (fs : FS) (prefix : string) (nfq n : nat) :
  forall (i : nat) (evs : list event) (outs : list handle),
  open_outputs fs prefix nfq n i = (evs, Ready outs) ->
  outs = map (output_handle prefix nfq) (seq i n).
Proof.
  induction n as [|n IH]; simpl; intros i evs outs H.
  - by injection H as _ <-.
  - unfold output_handle at 1. destruct (String.eqb prefix "") eqn:Ep.
    + destruct (open_outputs fs prefix nfq n (S i)) as [evs' [hs|m']] eqn:E; [|done].
      injection H as _ <-. f_equal. by eapply IH.
    + destruct (AmbiWriter_Open fs (output_name prefix nfq i)) as [ev [h|]] eqn:Eo; [|done].
      destruct (open_outputs fs prefix nfq n (S i)) as [evs' [hs|m']] eqn:E; [|done].
      injection H as _ <-. f_equal; [by eapply AmbiWriter_Open_output|by eapply IH].
Qed.

(** X5: when startup succeeds there is one input handle per input file; in
    tabular mode there is no output handle; otherwise there is one output
    handle per input file: standard output for each of them when no prefix is
    given, and else the gzip file [prefix.fq.gz] for a single input and
    [prefix_1.fq.gz], [prefix_2.fq.gz], ... for several. *)
Theorem startup_handles (fs : FS) (args : Args) (fq : list string)
        (evs : list event) (hs : handles) :
  startup fs args fq = (evs, Ready hs) ->
  length (inputs hs) = length fq
  /\ outputs hs
     = if Tab args then []
       else map (output_handle (OutPrefix args) (length fq)) (seq 0 (length fq)).
Proof.
  unfold startup. intros H.
  destruct (String.eqb (ReadsFilename args) ""); [done|].
  destruct (length fq =? 0)%nat; [done|].
  destruct (open_inputs fs fq) as [ev1 [ins|m1]] eqn:Ein; [|done].
  apply open_inputs_length in Ein.
  destruct (Tab args).
  - destruct (negb (String.eqb (OutPrefix args) "")); [done|].
    destruct (open_reads fs args) as [ev3 [rd|m3]]; [|done].
    by injection H as _ <-.
  - destruct (open_outputs fs (OutPrefix args) (length fq) (length fq) 0)
      as [ev2 [outs|m2]] eqn:Eout; [|done].
    apply open_outputs_handles in Eout.
    destruct (open_reads fs args) as [ev3 [rd|m3]]; [|done].
    by injection H as _ <-.
Qed.


Lemma startup_handles_witness :
  length [PlainFile "r1.fq"; GzipFile "r2.fq.gz"] = length ["r1.fq"; "r2.fq.gz"]
  /\ [GzipFile "out_1.fq.gz"; GzipFile "out_2.fq.gz"]
     = if Tab Samples.out_prefix then []
       else map (output_handle (OutPrefix Samples.out_prefix) (length ["r1.fq"; "r2.fq.gz"]))
                (seq 0 (length ["r1.fq"; "r2.fq.gz"])).
Proof.
  apply (startup_handles Samples.every_file Samples.out_prefix ["r1.fq"; "r2.fq.gz"]
           [OsOpen "r1.fq"; OsOpen "r2.fq.gz"; OsCreate "out_1.fq.gz";
            OsCreate "out_2.fq.gz"; OsOpen "names.txt"]
           {| inputs := [PlainFile "r1.fq"; GzipFile "r2.fq.gz"];
              outputs := [GzipFile "out_1.fq.gz"; GzipFile "out_2.fq.gz"];
              reads := PlainFile "names.txt" |}).
  vm_compute. reflexivity.
Defined.

(** X6: with an output prefix no two streams are given the same output file. *)
Theorem startup_outputs_distinct (fs : FS) (args : Args) (fq : list string)
        (evs : list event) (hs : handles) :
  startup fs args fq = (evs, Ready hs) ->
  Tab args = false ->
  OutPrefix args <> "" ->
  NoDup (outputs hs).
Proof.
  intros H Ht Hp. unfold startup in H.
  destruct (String.eqb (ReadsFilename args) ""); [done|].
  destruct (length fq =? 0)%nat; [done|].
  destruct (open_inputs fs fq) as [ev1 [ins|m1]]; [|done].
  rewrite Ht in H.
  destruct (open_outputs fs (OutPrefix args) (length fq) (length fq) 0)
    as [ev2 [outs|m2]] eqn:Eout; [|done].
  apply open_outputs_handles in Eout.
  destruct (open_reads fs args) as [ev3 [rd|m3]]; [|done].
  injection H as _ <-. simpl. subst outs.
  apply (NoDup_fmap_2_strong (output_handle (OutPrefix args) (length fq)));
    [|apply NoDup_seq].
  intros i j Hi Hj. unfold output_handle.
  destruct (String.eqb_spec (OutPrefix args) ""); [done|].
  intros Heq. injection Heq as Heq.
  destruct (decide (length fq = 1%nat)) as [H1|H1].
  - rewrite H1 in Hi, Hj. apply elem_of_seq in Hi, Hj. lia.
  - by eapply output_name_inj.
Qed.

Lemma startup_outputs_distinct_witness :
  NoDup [GzipFile "out_1.fq.gz"; GzipFile "out_2.fq.gz"].
Proof.
  apply (startup_outputs_distinct Samples.every_file Samples.out_prefix
           ["r1.fq"; "r2.fq.gz"]
           [OsOpen "r1.fq"; OsOpen "r2.fq.gz"; OsCreate "out_1.fq.gz";
            OsCreate "out_2.fq.gz"; OsOpen "names.txt"]
           {| inputs := [PlainFile "r1.fq"; GzipFile "r2.fq.gz"];
              outputs := [GzipFile "out_1.fq.gz"; GzipFile "out_2.fq.gz"];
              reads := PlainFile "names.txt" |}).
  - vm_compute. reflexivity.
  - reflexivity.
  - discriminate.
Defined.

(** *** Failures while opening *)

Lemma reader_opens_true (fs : FS) (fn : string) :
  reader_opens fs fn = true ->
  exists h, AmbiReader_Open fs fn = ((AmbiReader_Open fs fn).1, Some h).
Proof.
  unfold reader_opens, AmbiReader_Open.
  destruct (String.eqb fn ""); [by eexists|]. simpl.
  destruct (can_open fs fn); [|done]. simpl.
  destruct (HasSuffix fn ".gz"); simpl; [|by eexists].
  destruct (gzip_ok fs fn); [by eexists|done].
Qed.

Lemma reader_opens_false (fs : FS) (fn : string) :
  reader_opens fs fn = false -> AmbiReader_Open fs fn = ([OsOpen fn], None).
Proof.
  unfold reader_opens, AmbiReader_Open.
  destruct (String.eqb fn ""); [done|]. simpl.
  destruct (can_open fs fn); [|done]. simpl.
  destruct (HasSuffix fn ".gz"); simpl; [|done].
  by destruct (gzip_ok fs fn).
Qed.

Lemma open_inputs_first_failure (fs : FS) (pre post : list string) (fn : string) :
  Forall (fun f => reader_opens fs f = true) pre ->
  reader_opens fs fn = false ->
  open_inputs fs (pre ++ fn :: post)
  = (flat_map (fun f => (AmbiReader_Open fs f).1) pre
       ++ [OsOpen fn; LogFatal (FailedToOpen fn)],
     Fatal (FailedToOpen fn)).
Proof.
  intros Hpre Hfn. induction Hpre as [|f pre Hf _ IH]; simpl.
  - by rewrite (reader_opens_false _ _ Hfn).
  - destruct (reader_opens_true _ _ Hf) as [h ->]. rewrite IH. simpl.
    by rewrite <- app_assoc.
Qed.

(** X7: the first input that cannot be opened ends startup: the inputs after
    it are not opened, and no output and no name list is opened or created. *)
Theorem unreadable_input_stops_startup (fs : FS) (args : Args)
        (pre post : list string) (fn : string) :
  ReadsFilename args <> "" ->
  Forall (fun f => reader_opens fs f = true) pre ->
  reader_opens fs fn = false ->
  startup fs args (pre ++ fn :: post)
  = (flat_map (fun f => (AmbiReader_Open fs f).1) pre
       ++ [OsOpen fn; LogFatal (FailedToOpen fn)],
     Fatal (FailedToOpen fn)).
Proof.
  intros Hr Hpre Hfn. unfold startup.
  destruct (String.eqb_spec (ReadsFilename args) ""); [done|].
  replace (length (pre ++ fn :: post) =? 0)%nat with false
    by (rewrite length_app; simpl; symmetry; apply Nat.eqb_neq; lia).
  by rewrite open_inputs_first_failure.
Qed.


Lemma unreadable_input_stops_startup_witness :
  startup only_r1 Samples.out_prefix (["r1.fq"] ++ "r2.fq" :: ["r3.fq"])
  = (flat_map (fun f => (AmbiReader_Open only_r1 f).1) ["r1.fq"]
       ++ [OsOpen "r2.fq"; LogFatal (FailedToOpen "r2.fq")],
     Fatal (FailedToOpen "r2.fq")).
Proof.
  apply unreadable_input_stops_startup.
  - discriminate.
  - repeat constructor.
  - reflexivity.
Defined.

Lemma open_inputs_all (fs : FS) (fq : list string) :
  Forall (fun f => reader_opens fs f = true) fq ->
  exists ins, open_inputs fs fq
              = (flat_map (fun f => (AmbiReader_Open fs f).1) fq, Ready ins).
Proof.
  induction 1 as [|f fq Hf _ [ins IH]]; simpl; [by eexists|].
  destruct (reader_opens_true _ _ Hf) as [h ->]. rewrite IH. by eexists.
Qed.

Lemma open_outputs_created (fs : FS) (prefix : string) (nfq n : nat) :
  forall i : nat,
  prefix <> "" ->
  (forall k, (i <= k < i + n)%nat -> can_create fs (output_name prefix nfq k) = true) ->
  exists outs,
    open_outputs fs prefix nfq n i
    = (map (fun k => OsCreate (output_name prefix nfq k)) (seq i n), Ready outs).
Proof.
  induction n as [|n IH]; intros i Hp Hc; simpl; [by eexists|].
  destruct (String.eqb_spec prefix ""); [done|].
  unfold AmbiWriter_Open. rewrite output_name_nonempty, output_name_gz.
  rewrite Hc by lia.
  destruct (IH (S i) Hp) as [outs ->]; [intros; apply Hc; lia|]. by eexists.
Qed.

(** X8: a name list that cannot be opened is found out last: by then every
    input has been opened and every output file has been created. *)
Theorem unreadable_name_list_after_outputs (fs : FS) (args : Args) (fq : list string) :
  ReadsFilename args <> "" ->
  fq <> [] ->
  Forall (fun f => reader_opens fs f = true) fq ->
  Tab args = false ->
  OutPrefix args <> "" ->
  (forall i, (i < length fq)%nat ->
     can_create fs (output_name (OutPrefix args) (length fq) i) = true) ->
  reader_opens fs (readsFn args) = false ->
  startup fs args fq
  = (flat_map (fun f => (AmbiReader_Open fs f).1) fq
       ++ map (fun i => OsCreate (output_name (OutPrefix args) (length fq) i))
              (seq 0 (length fq))
       ++ [OsOpen (readsFn args); LogFatal (FailedToOpen (ReadsFilename args))],
     Fatal (FailedToOpen (ReadsFilename args))).
Proof.
  intros Hr Hfq Hin Ht Hp Hc Hrd. unfold startup.
  destruct (String.eqb_spec (ReadsFilename args) ""); [done|].
  replace (length fq =? 0)%nat with false
    by (symmetry; apply Nat.eqb_neq; by destruct fq).
  destruct (open_inputs_all _ _ Hin) as [ins ->]. rewrite Ht.
  destruct (open_outputs_created fs (OutPrefix args) (length fq) (length fq) 0 Hp)
    as [outs ->]; [intros; apply Hc; lia|].
  unfold open_reads. by rewrite (reader_opens_false _ _ Hrd).
Qed.

Lemma unreadable_name_list_after_outputs_witness :
  startup only_r1 Samples.out_prefix ["r1.fq"]
  = ([OsOpen "r1.fq"; OsCreate "out.fq.gz"; OsOpen "names.txt";
      LogFatal (FailedToOpen "names.txt")],
     Fatal (FailedToOpen "names.txt")).
Proof.
  apply (unreadable_name_list_after_outputs only_r1 Samples.out_prefix ["r1.fq"]).
  - discriminate.
  - discriminate.
  - repeat constructor.
  - reflexivity.
  - discriminate.
  - intros i Hi. reflexivity.
  - reflexivity.
Defined.

End StartupMore.

(** ** Engine: invariants of the loop *)

Module EngineMore.

Import Startup Engine Rows Counting EngineFacts.

Section Invariants.

Variable args : Args.
Variable filter : gmap string bool.
Variable outputs : list handle.
Variable wr_ok : nat -> bool.

Local Arguments on_sequence : simpl never.
Local Arguments emit : simpl never.
Local Arguments on_header : simpl never.
Local Arguments Z.pow : simpl never.

(** A property of the state that each part of the loop body keeps is kept
    by the whole loop. *)
Lemma stream_step_keeps (P : state -> Prop) :
  (forall st i rest, P st -> P (set_inputScanners (<[i := rest]> (inputScanners st)) st)) ->
  (forall i l st, P st -> P (flow_state (on_header args filter i l st))) ->
  (forall i l st, P st -> P (flow_state (on_sequence i l st))) ->
  (forall i l st, P st -> P (flow_state (emit args outputs wr_ok i l st))) ->
  forall i st, P st -> P (flow_state (stream_step args filter outputs wr_ok i st)).
Proof.
  intros Hscan Hhdr Hseq Hemit i st HP. unfold stream_step, Scan.
  destruct (inputScanners st !! i) as [[|l rest]|]; simpl; [by case_match| |done].
  specialize (Hhdr i l _ (Hscan st i rest HP)).
  destruct (on_header args filter i l _) as [st2|x st2]; simpl in Hhdr; [|done].
  specialize (Hseq i l _ Hhdr).
  destruct (on_sequence i l st2) as [st3|x st3]; simpl in Hseq; [|done].
  by apply Hemit.
Qed.

Lemma for_streams_keeps (P : state -> Prop) :
  (forall i st, P st -> P (flow_state (stream_step args filter outputs wr_ok i st))) ->
  forall n i st, P st -> P (flow_state (for_streams args filter outputs wr_ok n i st)).
Proof.
  intros Hstep. induction n as [|n IH]; intros i st HP; simpl; [done|].
  specialize (Hstep i st HP).
  destruct (stream_step args filter outputs wr_ok i st) as [st1|x st1]; simpl in Hstep;
    [by apply IH|done].
Qed.

Lemma run_keeps (P : state -> Prop) :
  (forall i st, P st -> P (flow_state (stream_step args filter outputs wr_ok i st))) ->
  (forall z st, P st -> P (set_line_num z st)) ->
  forall fuel st x st', P st -> run args filter outputs wr_ok fuel st = Some (x, st') -> P st'.
Proof.
  intros Hstep Hln. induction fuel as [|fuel IH]; intros st x st' HP H; simpl in H; [done|].
  unfold iteration in H.
  pose proof (for_streams_keeps P Hstep (len_fq st) 0 st HP) as Hf.
  destruct (for_streams args filter outputs wr_ok (len_fq st) 0 st) as [st1|y st1];
    simpl in Hf; [|by simplify_eq].
  cbv zeta in H. destruct (_ && _); [simplify_eq; by apply Hln|].
  eapply IH; [|done]. by apply Hln.
Qed.

(** *** Nothing selected, nothing written *)

Lemma unselected_step (i : nat) (st : state) :
  Invert args = false ->
  (forall nm, NameIndex.member filter nm = false) ->
  enable st = false /\ written st = [] ->
  let st' := flow_state (stream_step args filter outputs wr_ok i st) in
  enable st' = false /\ written st' = [].
Proof.
  intros Hinv Hnone. apply (stream_step_keeps (fun s => enable s = false /\ written s = [])).
  - by intros s j rest.
  - intros j l s [He Hw]. unfold on_header.
    repeat case_match; simpl; rewrite ?Hinv, ?Hnone; done.
  - intros j l s [He Hw]. unfold on_sequence. repeat case_match; simpl; done.
  - intros j l s [He Hw]. unfold emit. rewrite He. done.
Qed.


(** *** A refused write is the last one *)

(** X10: in per-stream mode the log never grows past a write that is refused:
    if the write after [k] successful ones fails, at most [k] lines are ever
    written. *)
Theorem refused_write_is_last (streams : list (list string)) (k : nat) :
  Tab args = false ->
  wr_ok k = false ->
  streams <> [] ->
  Z.of_nat (length (hd [] streams)) < 2 ^ 63 ->
  exists x st',
    filter_streams args filter outputs wr_ok streams = Some (x, st')
    /\ (length (written st') <= k)%nat.
Proof.
  intros Htab Hk Hne HL.
  destruct (filter_streams_counted args filter outputs wr_ok streams Hne HL)
    as (x & st' & H & _).
  exists x, st'. split; [done|]. unfold filter_streams in H.
  eapply (run_keeps (fun s => (length (written s) <= k)%nat)) in H; [done| | |].
  - apply stream_step_keeps.
    + by intros s j rest.
    + intros j l s Hs. unfold on_header. repeat case_match; simpl; done.
    + intros j l s Hs. unfold on_sequence. repeat case_match; simpl; done.
    + intros j l s Hs. unfold emit. rewrite Htab.
      repeat case_match; simpl; try done.
      rewrite length_app. simpl.
      assert (length (written s) <> k) by congruence. lia.
  - by intros z st.
  - simpl. lia.
Qed.


(** *** The limit *)

Lemma int_incr_bounds (z : Z) :
  - 2 ^ 63 <= z -> - 2 ^ 63 <= int_incr z <= z + 1.
Proof.
  intros Hz. unfold int_incr, int_wrap.
  pose proof (Z.mod_pos_bound (z + 1 + 2 ^ 63) (2 ^ 64) ltac:(lia)).
  pose proof (Z.mod_le (z + 1 + 2 ^ 63) (2 ^ 64) ltac:(lia) ltac:(lia)). lia.
Qed.

(** A turn of the inner loop adds at most one to the included-count, and
    only on stream 0. *)
Lemma stream_step_included (i : nat) (st : state) :
  - 2 ^ 63 <= included st ->
  let st' := flow_state (stream_step args filter outputs wr_ok i st) in
  - 2 ^ 63 <= included st' <= included st + (if (i =? 0)%nat then 1 else 0).
Proof.
  intros Hz st'. subst st'. destruct i as [|i].
  - unfold stream_step, Scan.
    destruct (inputScanners st !! 0%nat) as [[|l rest]|]; simpl; [lia| |lia].
    set (st1 := set_inputScanners _ st).
    assert (H1 : included st1 = included st) by done.
    assert (Hh : included (flow_state (on_header args filter 0 l st1)) = included st).
    { unfold on_header. repeat case_match; simpl; done. }
    destruct (on_header args filter 0 l st1) as [st2|x st2]; simpl in Hh |- *; [|lia].
    assert (Hs : - 2 ^ 63 <= included (flow_state (on_sequence 0 l st2))
                 <= included st + 1).
    { unfold on_sequence. repeat case_match; simpl; rewrite ?Hh; try lia.
      rewrite <- Hh. apply int_incr_bounds. lia. }
    destruct (on_sequence 0 l st2) as [st3|x st3]; simpl in Hs |- *; [|done].
    pose proof (emit_frame args outputs wr_ok 0 l st3) as (_ & He & _).
    simpl. rewrite He. done.
  - pose proof (stream_step_frame args filter outputs wr_ok (S i) st ltac:(lia))
      as (_ & He & _).
    simpl. rewrite He. lia.
Qed.

Lemma for_streams_included (n : nat) :
  forall (i : nat) (st : state),
  - 2 ^ 63 <= included st ->
  let st' := flow_state (for_streams args filter outputs wr_ok n i st) in
  - 2 ^ 63 <= included st' <= included st + (if (i =? 0)%nat then 1 else 0).
Proof.
  induction n as [|n IH]; intros i st Hz st'; subst st'; simpl; [destruct i; simpl; lia|].
  pose proof (stream_step_included i st Hz) as Hs. simpl in Hs.
  destruct (stream_step args filter outputs wr_ok i st) as [st1|x st1]; simpl in Hs |- *;
    [|done].
  pose proof (IH (S i) st1 ltac:(lia)) as Hr. simpl in Hr. lia.
Qed.

Lemma run_limit (fuel : nat) :
  forall (st : state) (x : exit) (st' : state),
  0 < Limit args ->
  - 2 ^ 63 <= included st < Limit args ->
  run args filter outputs wr_ok fuel st = Some (x, st') ->
  included st' <= Limit args.
Proof.
  induction fuel as [|fuel IH]; intros st x st' Hpos Hz H; simpl in H; [done|].
  unfold iteration in H.
  pose proof (for_streams_included (len_fq st) 0 st ltac:(lia)) as Hf. simpl in Hf.
  destruct (for_streams args filter outputs wr_ok (len_fq st) 0 st) as [st1|y st1];
    simpl in Hf; [|simplify_eq; lia].
  cbv zeta in H. simpl in H.
  destruct (Limit args >? 0) eqn:Eg; [|lia]. simpl in H.
  destruct (included st1 >=? Limit args) eqn:El.
  - simplify_eq. simpl. lia.
  - eapply IH; [done| |done]. simpl. lia.
Qed.

(** X11: with [-limit K], [K] positive, the included-count never passes [K],
    whatever the input and however the loop is left. *)
Theorem included_at_most_limit (streams : list (list string)) :
  0 < Limit args ->
  streams <> [] ->
  Z.of_nat (length (hd [] streams)) < 2 ^ 63 ->
  exists x st',
    filter_streams args filter outputs wr_ok streams = Some (x, st')
    /\ included st' <= Limit args.
Proof.
  intros Hpos Hne HL.
  destruct (filter_streams_counted args filter outputs wr_ok streams Hne HL)
    as (x & st' & H & _).
  exists x, st'. split; [done|]. unfold filter_streams in H.
  eapply run_limit; [done| |done]. simpl. lia.
Qed.

End Invariants.


Lemma refused_write_is_last_witness :
  exists x st',
    filter_streams Samples.reads_names Samples.names_a [StdStream] MoreSamples.one_write
      [["@a"; "ACGT"; "+"; "IIII"]]
    = Some (x, st')
    /\ (length (written st') <= 1)%nat.
Proof.
  apply (refused_write_is_last Samples.reads_names Samples.names_a [StdStream]
           MoreSamples.one_write [["@a"; "ACGT"; "+"; "IIII"]] 1).
  - reflexivity.
  - reflexivity.
  - discriminate.
  - reflexivity.
Defined.

Lemma included_at_most_limit_witness :
  exists x st',
    filter_streams Samples.limit_one Samples.names_a [StdStream] Samples.always_ok
      [["@a"; "ACGT"; "+"; "IIII"; "@a"; "CC"; "+"; "II"]]
    = Some (x, st')
    /\ included st' <= Limit Samples.limit_one.
Proof.
  apply (included_at_most_limit Samples.limit_one Samples.names_a [StdStream]
           Samples.always_ok [["@a"; "ACGT"; "+"; "IIII"; "@a"; "CC"; "+"; "II"]]).
  - reflexivity.
  - discriminate.
  - reflexivity.
Defined.

(** *** Whole records *)

Section Whole.

Variable args : Args.
Variable filter : gmap string bool.
Variable outputs : list handle.
Variable wr_ok : nat -> bool.
Hypothesis wr_ok_all : forall k, wr_ok k = true.


End Whole.


End EngineMore.

(** ** Engine: what each exit means *)

Module LockstepFacts.

Import Startup Engine Rows Counting EngineFacts Words Lockstep.

Section Exits.

Variable args : Args.
Variable filter : gmap string bool.
Variable outputs : list handle.
Variable wr_ok : nat -> bool.

Local Arguments on_sequence : simpl never.
Local Arguments emit : simpl never.
Local Arguments on_header : simpl never.
Local Arguments Z.pow : simpl never.

Lemma on_header_next (j : nat) (l : string) (st st' : state) :
  on_header args filter j l st = Next st' ->
  inputScanners st' = inputScanners st /\ line_num st' = line_num st
  /\ sequences st' = sequences st /\ written st' = written st.
Proof. unfold on_header. intros H. repeat case_match; simplify_eq; done. Qed.

Lemma on_header_stop (j : nat) (l : string) (st : state) (x : exit) (st' : state) :
  on_header args filter j l st = Stop x st' ->
  st' = st /\ Z.rem (line_num st) 4 = 0
  /\ ((x = ReturnErr (HeaderExpected (line_num st) l) /\ HasPrefix l "@" = false)
      \/ (x = IndexPanic /\ j = 0%nat /\ ShortName args = true
          /\ exists nm, slice_from_1 l = Some nm /\ blank nm = true)).
Proof.
  unfold on_header. intros H.
  destruct (Z.rem (line_num st) 4 =? 0) eqn:E0; [|done].
  apply Z.eqb_eq in E0.
  destruct (HasPrefix l "@") eqn:Ep; [|simplify_eq; by auto].
  destruct (j =? 0)%nat eqn:Ej; [|done]. apply Nat.eqb_eq in Ej.
  destruct (slice_from_1 l) as [nm|] eqn:Es; [|by destruct l].
  destruct (ShortName args) eqn:Esn; [|done].
  destruct (first_field nm) eqn:Ef; [done|]. simplify_eq.
  repeat split; [done|]. right. repeat split. exists nm. split; [done|].
  unfold first_field, Fields in Ef.
  destruct (fields_from "" nm) eqn:Eff; [|done].
  by apply FieldsFacts.fields_from_nil in Eff as [_ ?].
Qed.

Lemma on_sequence_next (j : nat) (l : string) (st st' : state) :
  on_sequence j l st = Next st' ->
  inputScanners st' = inputScanners st /\ line_num st' = line_num st
  /\ length (sequences st') = length (sequences st) /\ written st' = written st.
Proof.
  unfold on_sequence. intros H.
  repeat case_match; simplify_eq; simpl; rewrite ?length_insert; done.
Qed.

Lemma on_sequence_stop (j : nat) (l : string) (st : state) (x : exit) (st' : state) :
  on_sequence j l st = Stop x st' -> (length (sequences st) <= j)%nat.
Proof.
  unfold on_sequence. intros H.
  destruct (Z.rem (line_num st) 4 =? 1); [|done].
  destruct (Nat.ltb_spec j (length (sequences st))); [|done].
  cbv zeta in H. repeat case_match; simplify_eq.
Qed.

Lemma emit_next (j : nat) (l : string) (st st' : state) :
  emit args outputs wr_ok j l st = Next st' ->
  inputScanners st' = inputScanners st /\ line_num st' = line_num st
  /\ sequences st' = sequences st.
Proof. unfold emit. intros H. repeat case_match; simplify_eq; done. Qed.

Lemma emit_stop (j : nat) (l : string) (st : state) (x : exit) (st' : state) :
  emit args outputs wr_ok j l st = Stop x st' ->
  st' = st /\ Tab args = false /\ enable st = true
  /\ ((x = IndexPanic /\ outputs !! j = None)
      \/ (x = ReturnErr (WriteFailed (line_num st) j) /\ is_Some (outputs !! j)
          /\ wr_ok (length (written st)) = false)).
Proof.
  unfold emit. intros H.
  destruct (enable st); [|done]. destruct (Tab args); [by case_match|].
  destruct (outputs !! j) as [w|] eqn:Eo; [|simplify_eq; repeat split; by left].
  destruct (wr_ok (length (written st))) eqn:Ew; [done|]. simplify_eq.
  repeat split. right. by eauto.
Qed.

Lemma hd_lookup_0 {A} (d : A) (l : list A) (x : A) : l !! 0%nat = Some x -> hd d l = x.
Proof. destruct l; simpl; congruence. Qed.

Variable streams : list (list string).

(** One turn of the inner loop. *)
Lemma stream_step_lockstep (j : nat) (st : state) :
  lockstep streams j st ->
  (j < length streams)%nat ->
  match stream_step args filter outputs wr_ok j st with
  | Next st' => lockstep streams (S j) st' /\ line_num st' = line_num st
  | Stop x st' => explained args outputs wr_ok streams x st'
  end.
Proof.
  intros (Hln & Hlen & Hsq & Hall) Hj.
  destruct (lookup_lt_is_Some_2 streams j Hj) as [s Hs].
  destruct (Hall j s Hs) as [Hk Hscan]. rewrite Nat.ltb_irrefl, Nat.add_0_r in Hk, Hscan.
  unfold stream_step, Scan. rewrite Hscan.
  destruct (drop (Z.to_nat (line_num st)) s) as [|l rest] eqn:Ed.
  - (* the stream is exhausted *)
    assert (Hs_len : length s = Z.to_nat (line_num st)).
    { apply (f_equal length) in Ed. rewrite length_drop in Ed. simpl in Ed. lia. }
    destruct j as [|j]; simpl.
    + left. rewrite (hd_lookup_0 [] streams s Hs).
      split; [done|]. intros i s' Hi. destruct (Hall i s' Hi) as [? _]. lia.
    + split; [lia|]. exists s. repeat split; [done|done|].
      intros j' s' Hj' Hs'. destruct (Hall j' s' Hs') as [Hk' _].
      destruct (Nat.ltb_spec j' (S j)); lia.
  - (* it delivers [l] *)
    assert (Hl : s !! Z.to_nat (line_num st) = Some l).
    { rewrite <- (Nat.add_0_r (Z.to_nat (line_num st))), <- lookup_drop, Ed. done. }
    assert (Hrest : rest = drop (S (Z.to_nat (line_num st))) s).
    { rewrite (drop_S _ _ _ Hl) in Ed. by simplify_eq. }
    set (st1 := set_inputScanners (<[j:=rest]> (inputScanners st)) st).
    assert (Hln1 : line_num st1 = line_num st) by done.
    assert (Hsq1 : sequences st1 = sequences st) by done.
    assert (Hgo : forall st', line_num st' = line_num st ->
              inputScanners st' = inputScanners st1 ->
              length (sequences st') = length (sequences st) ->
              lockstep streams (S j) st').
    { intros st' H1 H2 H3. unfold lockstep. rewrite H1, H2, H3. subst st1. simpl.
      rewrite length_insert. repeat split; [done|done|done|..].
      - destruct (Hall i s0 H) as [Hk' _].
        destruct (decide (i = j)) as [->|Hne].
        + simplify_eq. apply lookup_lt_Some in Hl.
          destruct (Nat.ltb_spec j (S j)); lia.
        + destruct (Nat.ltb_spec i (S j)), (Nat.ltb_spec i j); lia.
      - destruct (Hall i s0 H) as [_ Hsc].
        destruct (decide (i = j)) as [->|Hne].
        + simplify_eq. rewrite list_lookup_insert_eq by lia.
          destruct (Nat.ltb_spec j (S j)); [|lia]. by rewrite Nat.add_1_r.
        + rewrite list_lookup_insert_ne by done. rewrite Hsc.
          destruct (Nat.ltb_spec i (S j)), (Nat.ltb_spec i j); try lia; done. }
    destruct (on_header args filter j l st1) as [st2|x st2] eqn:Eh.
    + apply on_header_next in Eh as (Hh1 & Hh2 & Hh3 & Hh4).
      destruct (on_sequence j l st2) as [st3|x st3] eqn:Eq.
      * apply on_sequence_next in Eq as (Hq1 & Hq2 & Hq3 & Hq4).
        destruct (emit args outputs wr_ok j l st3) as [st4|x st4] eqn:Ee.
        -- apply emit_next in Ee as (He1 & He2 & He3).
           split; [|congruence]. apply Hgo; congruence.
        -- apply emit_stop in Ee as (-> & Htab & Hen & [[-> Ho]|(-> & Ho & Hw)]).
           ++ right. repeat split; [done|done|]. apply lookup_ge_None in Ho. lia.
           ++ simpl. rewrite Hq2, Hh2. simpl. repeat split; try done.
              exists s. split; [done|]. by eauto.
      * apply on_sequence_stop in Eq. rewrite Hh3 in Eq. simpl in Eq. lia.
    + apply on_header_stop in Eh as (-> & Hrem & [[-> Hp]|(-> & -> & Hsn & nm & Hnm & Hb)]).
      * simpl. repeat split; try done. by exists j, s.
      * left. simpl in *. repeat split; [done|done|]. exists l, nm.
        by rewrite (hd_lookup_0 [] streams s Hs).
Qed.

Lemma for_streams_lockstep (n : nat) :
  forall (j : nat) (st : state),
  lockstep streams j st ->
  (j + n = length streams)%nat ->
  match for_streams args filter outputs wr_ok n j st with
  | Next st' => lockstep streams (length streams) st' /\ line_num st' = line_num st
  | Stop x st' => explained args outputs wr_ok streams x st'
  end.
Proof.
  induction n as [|n IH]; intros j st Hl Hj; simpl.
  - by replace (length streams) with j by lia.
  - pose proof (stream_step_lockstep j st Hl ltac:(lia)) as Hs.
    destruct (stream_step args filter outputs wr_ok j st) as [st1|x st1]; [|done].
    destruct Hs as [Hl1 Hn1]. specialize (IH (S j) st1 Hl1 ltac:(lia)).
    destruct (for_streams args filter outputs wr_ok n (S j) st1); [|done].
    destruct IH. split; [done|congruence].
Qed.

Lemma iteration_lockstep (st : state) :
  streams <> [] ->
  Z.of_nat (length (hd [] streams)) < 2 ^ 63 ->
  lockstep streams 0 st ->
  match iteration args filter outputs wr_ok st with
  | Next st' => lockstep streams 0 st'
  | Stop x st' => explained args outputs wr_ok streams x st'
  end.
Proof.
  intros Hne HL Hl. unfold iteration.
  assert (Hlen : len_fq st = length streams) by apply Hl.
  pose proof (for_streams_lockstep (len_fq st) 0 st Hl ltac:(lia)) as Hf.
  destruct (for_streams args filter outputs wr_ok (len_fq st) 0 st) as [st1|x st1];
    [|done].
  destruct Hf as [(Hln & Hlen1 & Hsq & Hall) Hn1].
  assert (Hpos : (0 < length streams)%nat).
  { destruct (decide (length streams = 0%nat)) as [E|E]; [|lia].
    by apply nil_length_inv in E. }
  destruct (lookup_lt_is_Some_2 streams 0) as [s0 Hs0]; [lia|].
  rewrite (hd_lookup_0 [] streams s0 Hs0) in HL.
  destruct (Hall 0%nat s0 Hs0) as [Hk _].
  destruct (Nat.ltb_spec 0 (length streams)); [|lia].
  assert (Hincr : int_incr (line_num st1) = line_num st1 + 1).
  { apply int_incr_in_range. lia. }
  cbv zeta. rewrite Hincr.
  assert (Hl' : lockstep streams 0 (set_line_num (line_num st1 + 1) st1)).
  { unfold lockstep. simpl. repeat split; [lia|done|done|..].
    - destruct (Hall i s H0) as [Hk' _].
      apply lookup_lt_Some in H0.
      destruct (Nat.ltb_spec i (length streams)); lia.
    - destruct (Hall i s H0) as [_ Hsc]. rewrite Hsc.
      apply lookup_lt_Some in H0.
      destruct (Nat.ltb_spec i (length streams)); [|lia].
      do 2 f_equal. lia. }
  destruct (Limit args >? 0) eqn:Eg; simpl; [|done].
  destruct (Z.geb_spec (included st1) (Limit args)); [|done].
  right. simpl. lia.
Qed.

Lemma run_lockstep (fuel : nat) :
  forall (st : state) (x : exit) (st' : state),
  streams <> [] ->
  Z.of_nat (length (hd [] streams)) < 2 ^ 63 ->
  lockstep streams 0 st ->
  run args filter outputs wr_ok fuel st = Some (x, st') ->
  explained args outputs wr_ok streams x st'.
Proof.
  induction fuel as [|fuel IH]; intros st x st' Hne HL Hl H; simpl in H; [done|].
  pose proof (iteration_lockstep st Hne HL Hl) as Hi.
  destruct (iteration args filter outputs wr_ok st) as [st1|y st1].
  - by eapply IH.
  - by simplify_eq.
Qed.

Lemma init_lockstep (inv : bool) : lockstep streams 0 (init inv streams).
Proof.
  unfold lockstep, init. simpl. rewrite length_replicate.
  repeat split; [done|lia|done].
Qed.

(** However the loop is left, the exit is explained by the input. *)
Lemma filter_streams_explained :
  streams <> [] ->
  Z.of_nat (length (hd [] streams)) < 2 ^ 63 ->
  exists x st',
    filter_streams args filter outputs wr_ok streams = Some (x, st')
    /\ explained args outputs wr_ok streams x st'.
Proof.
  intros Hne HL.
  destruct (filter_streams_counted args filter outputs wr_ok streams Hne HL)
    as (x & st' & H & _).
  exists x, st'. split; [done|]. unfold filter_streams in H.
  eapply run_lockstep; [done|done|apply init_lockstep|done].
Qed.


(** Without streams the loop function never returns: [main] rules this
    case out before the loop (line 150). *)
Lemma filter_streams_nil : filter_streams args filter outputs wr_ok [] = None.
Proof.
  unfold filter_streams, init. simpl. unfold iteration. simpl.
  destruct (Limit args >? 0) eqn:Eg; simpl; [|done].
  destruct (Z.geb_spec 0 (Limit args)); [lia|done].
Qed.

Lemma filter_streams_explains (x : exit) (st' : state) :
  Z.of_nat (length (hd [] streams)) < 2 ^ 63 ->
  filter_streams args filter outputs wr_ok streams = Some (x, st') ->
  explained args outputs wr_ok streams x st'.
Proof.
  intros HL H.
  assert (Hne : streams <> []).
  { intros E. rewrite E, filter_streams_nil in H. done. }
  destruct (filter_streams_explained Hne HL) as (x0 & st0 & H0 & He).
  rewrite H in H0. by simplify_eq.
Qed.

(** X13: the line number in a header error is the 0-based position, a multiple
    of 4, of a line of some stream, and the line quoted is that line and
    lacks the sentinel. *)
Theorem header_error_position (ln : Z) (line : string) (st' : state) :
  Z.of_nat (length (hd [] streams)) < 2 ^ 63 ->
  filter_streams args filter outputs wr_ok streams
  = Some (ReturnErr (HeaderExpected ln line), st') ->
  0 <= ln /\ Z.rem ln 4 = 0 /\ HasPrefix line "@" = false
  /\ exists i s, streams !! i = Some s /\ s !! Z.to_nat ln = Some line.
Proof.
  intros HL H. apply (filter_streams_explains _ _ HL) in H.
  destruct H as (_ & ? & ? & ? & ?). done.
Qed.

(** X14: a write error is reported only in per-stream mode, for a line of a
    selected record, on the first write that is refused; the numbers in
    it are those of an existing output and of a line of the stream of the
    same index. *)
Theorem write_error_position (ln : Z) (i : nat) (st' : state) :
  Z.of_nat (length (hd [] streams)) < 2 ^ 63 ->
  filter_streams args filter outputs wr_ok streams
  = Some (ReturnErr (WriteFailed ln i), st') ->
  Tab args = false /\ enable st' = true
  /\ wr_ok (length (written st')) = false
  /\ is_Some (outputs !! i)
  /\ 0 <= ln /\ exists s, streams !! i = Some s /\ is_Some (s !! Z.to_nat ln).
Proof.
  intros HL H. apply (filter_streams_explains _ _ HL) in H.
  destruct H as (_ & ? & ? & ? & ? & ? & ?). done.
Qed.

(** X15: the desynchronization error names the first stream that is shorter
    than stream 0: the stream reported has exactly as many lines as were
    taken off each stream before, and every stream before it has more. *)
Theorem desync_names_first_short_stream (i : nat) (st' : state) :
  Z.of_nat (length (hd [] streams)) < 2 ^ 63 ->
  filter_streams args filter outputs wr_ok streams
  = Some (ReturnErr (ScannerExpected i), st') ->
  (0 < i)%nat
  /\ exists s, streams !! i = Some s /\ length s = Z.to_nat (line_num st')
     /\ forall j s', (j < i)%nat -> streams !! j = Some s' -> (length s < length s')%nat.
Proof.
  intros HL H. by apply (filter_streams_explains _ _ HL) in H.
Qed.

(** X16: the loop returns [nil] in two cases only: stream 0 is read to its end,
    no other stream being shorter, or a positive limit is met exactly. *)
Theorem nil_return_end_or_limit (st' : state) :
  Z.of_nat (length (hd [] streams)) < 2 ^ 63 ->
  filter_streams args filter outputs wr_ok streams = Some (ReturnNil, st') ->
  (Z.to_nat (line_num st') = length (hd [] streams)
   /\ forall i s, streams !! i = Some s -> (length (hd [] streams) <= length s)%nat)
  \/ (0 < Limit args /\ included st' = Limit args).
Proof.
  intros HL H. pose proof H as Hrun. apply (filter_streams_explains _ _ HL) in H.
  destruct H as [H|[Hpos Hge]]; [by left|right]. split; [done|].
  unfold filter_streams in Hrun.
  apply (EngineMore.run_limit args filter outputs wr_ok) in Hrun; [lia|done|simpl; lia].
Qed.


End Exits.

Import Samples MoreSamples.

Lemma header_error_position_witness :
  0 <= 0 /\ Z.rem 0 4 = 0 /\ HasPrefix "a/2" "@" = false
  /\ exists i s, bad_mate !! i = Some s /\ s !! Z.to_nat 0 = Some "a/2".
Proof.
  eapply (header_error_position reads_names names_a [StdStream; StdStream] always_ok
            bad_mate 0 "a/2").
  - reflexivity.
  - vm_compute. reflexivity.
Defined.

Lemma write_error_position_witness :
  exists st',
    filter_streams reads_names names_a [StdStream] one_write
      [["@a"; "ACGT"; "+"; "IIII"]]
    = Some (ReturnErr (WriteFailed 1 0), st')
    /\ Tab reads_names = false /\ enable st' = true
    /\ one_write (length (written st')) = false
    /\ is_Some ([StdStream] !! 0%nat)
    /\ 0 <= 1
    /\ exists s, [["@a"; "ACGT"; "+"; "IIII"]] !! 0%nat = Some s
         /\ is_Some (s !! Z.to_nat 1).
Proof.
  eexists. split; [vm_compute; reflexivity|].
  apply (write_error_position reads_names names_a [StdStream] one_write
           [["@a"; "ACGT"; "+"; "IIII"]] 1 0).
  - reflexivity.
  - vm_compute. reflexivity.
Defined.

Lemma desync_names_first_short_stream_witness :
  exists st',
    filter_streams reads_names names_a [StdStream; StdStream] always_ok short_mate
    = Some (ReturnErr (ScannerExpected 1), st')
    /\ (0 < 1)%nat
    /\ exists s, short_mate !! 1%nat = Some s /\ length s = Z.to_nat (line_num st')
       /\ forall j s', (j < 1)%nat -> short_mate !! j = Some s' ->
            (length s < length s')%nat.
Proof.
  eexists. split; [vm_compute; reflexivity|].
  apply (desync_names_first_short_stream reads_names names_a [StdStream; StdStream]
           always_ok short_mate 1).
  - reflexivity.
  - vm_compute. reflexivity.
Defined.

Lemma nil_return_end_or_limit_witness :
  exists st',
    filter_streams reads_names names_a [StdStream] always_ok truncated
    = Some (ReturnNil, st')
    /\ ((Z.to_nat (line_num st') = length (hd [] truncated)
         /\ forall i s, truncated !! i = Some s ->
              (length (hd [] truncated) <= length s)%nat)
        \/ (0 < Limit reads_names /\ included st' = Limit reads_names)).
Proof.
  eexists. split; [vm_compute; reflexivity|].
  apply (nil_return_end_or_limit reads_names names_a [StdStream] always_ok truncated).
  - reflexivity.
  - vm_compute. reflexivity.
Defined.


End LockstepFacts.

(** ** Readers and writers *)

Module AmbiFacts.

Import Startup Ambi Deferred.

(** X18: [Open] on the zero value of a reader does what [Startup.AmbiReader_Open]
    says: the same system calls and the same binding; it returns an error
    exactly when nothing is bound; and a reader it binds holds the file and
    the gzip layer of its handle. *)
Theorem reader_Open_fresh (fs : FS) (fn : string) :
  let '(a, ev, e) := AmbiReader.Open fs fn zero in
  AmbiReader_Open fs fn = (ev, r a)
  /\ (e = None <-> is_Some (r a))
  /\ match r a with Some h => a = bound h | None => gz a = None end.
Proof.
  unfold AmbiReader.Open, AmbiReader_Open. simpl.
  repeat case_match; simplify_eq; simpl in *; simplify_eq; repeat split;
    try done; try (by eexists); try (by intros []).
Qed.

(** X19: [Open] on the zero value of a writer does what [Startup.AmbiWriter_Open]
    says: the same system calls and the same binding; it returns an error
    exactly when nothing is bound; a writer it binds holds the file and the
    gzip layer of its handle; and [Stdout] on the zero value binds standard
    output with no file behind it. *)
Theorem writer_Open_fresh (fs : FS) (fn : string) :
  let '(a, ev, e) := AmbiWriter.Open fs fn zero in
  AmbiWriter_Open fs fn = (ev, r a)
  /\ (e = None <-> is_Some (r a))
  /\ match r a with Some h => a = bound h | None => gz a = None end
  /\ AmbiWriter.Stdout zero = bound StdStream.
Proof.
  unfold AmbiWriter.Open, AmbiWriter_Open. simpl.
  repeat case_match; simplify_eq; simpl in *; simplify_eq; repeat split;
    try done; try (by eexists); try (by intros []).
Qed.



(** X21: closing what was opened: after a successful [Open] on a fresh reader,
    [Close] (its calls succeeding) closes the gzip layer, if any, and then
    the file; for a reader bound to standard input there is no file, nothing
    is closed and [Close] returns the error of a nil file. *)
Theorem reader_Open_Close (fs : FS) (fn : string) (a : ambi) (ev : list event) :
  AmbiReader.Open fs fn zero = (a, ev, None) ->
  exists h, r a = Some h
    /\ Close all_close a
       = (closes h, if String.eqb fn "" then Some ErrInvalid else None)
    /\ (h = StdStream <-> fn = "").
Proof.
  unfold AmbiReader.Open. simpl. intros H.
  destruct (String.eqb_spec fn "") as [->|Hne].
  - simplify_eq. by exists StdStream.
  - repeat case_match; simplify_eq; eexists; (split; [done|]); (split; [done|]);
      split; intros; done.
Qed.

Lemma reader_Open_Close_witness :
  exists h, r (bound (GzipFile "r2.fq.gz")) = Some h
    /\ Close all_close (bound (GzipFile "r2.fq.gz"))
       = (closes h, if String.eqb "r2.fq.gz" "" then Some ErrInvalid else None)
    /\ (h = StdStream <-> "r2.fq.gz" = "").
Proof.
  apply (reader_Open_Close Samples.every_file "r2.fq.gz" (bound (GzipFile "r2.fq.gz"))
           [OsOpen "r2.fq.gz"]).
  vm_compute. reflexivity.
Defined.

(** X22: after a successful [Open] on a fresh writer, [Close] (its calls
    succeeding) closes the gzip layer, if any, and then the file; for a
    writer bound to standard output there is no file, nothing is closed and
    [Close] returns the error of a nil file. *)
Theorem writer_Open_Close (fs : FS) (fn : string) (a : ambi) (ev : list event) :
  AmbiWriter.Open fs fn zero = (a, ev, None) ->
  exists h, r a = Some h
    /\ Close all_close a
       = (closes h, if String.eqb fn "" then Some ErrInvalid else None)
    /\ (h = StdStream <-> fn = "").
Proof.
  unfold AmbiWriter.Open. simpl. intros H.
  destruct (String.eqb_spec fn "") as [->|Hne].
  - simplify_eq. by exists StdStream.
  - repeat case_match; simplify_eq; eexists; (split; [done|]); (split; [done|]);
      split; intros; done.
Qed.

Lemma writer_Open_Close_witness :
  exists h, r (bound (PlainFile "out.fq")) = Some h
    /\ Close all_close (bound (PlainFile "out.fq"))
       = (closes h, if String.eqb "out.fq" "" then Some ErrInvalid else None)
    /\ (h = StdStream <-> "out.fq" = "").
Proof.
  apply (writer_Open_Close Samples.every_file "out.fq" (bound (PlainFile "out.fq"))
           [OsCreate "out.fq"]).
  vm_compute. reflexivity.
Defined.

(** X23: [Stdout] rebinds without a guard: called on a writer that [Open] bound
    to a file, it sends the writes to standard output while the file stays
    the one that [Close] closes. *)
Theorem writer_Stdout_after_Open (fs : FS) (fn : string) (a : ambi) (ev : list event) :
  fn <> "" ->
  AmbiWriter.Open fs fn zero = (a, ev, None) ->
  r (AmbiWriter.Stdout a) = Some StdStream
  /\ fp (AmbiWriter.Stdout a) = Some fn
  /\ Close all_close (AmbiWriter.Stdout a) = Close all_close a
  /\ exists cl, Close all_close a = (cl ++ [FileClose fn], None).
Proof.
  unfold AmbiWriter.Open. simpl. intros Hne H.
  destruct (String.eqb_spec fn "") as [->|_]; [done|].
  repeat case_match; simplify_eq; repeat split.
  - by exists [GzClose fn].
  - by exists [].
Qed.

Lemma writer_Stdout_after_Open_witness :
  r (AmbiWriter.Stdout (bound (GzipFile "out.fq.gz"))) = Some StdStream
  /\ fp (AmbiWriter.Stdout (bound (GzipFile "out.fq.gz"))) = Some "out.fq.gz"
  /\ Close all_close (AmbiWriter.Stdout (bound (GzipFile "out.fq.gz")))
     = Close all_close (bound (GzipFile "out.fq.gz"))
  /\ exists cl, Close all_close (bound (GzipFile "out.fq.gz"))
               = (cl ++ [FileClose "out.fq.gz"], None).
Proof.
  apply (writer_Stdout_after_Open Samples.every_file "out.fq.gz"
           (bound (GzipFile "out.fq.gz")) [OsCreate "out.fq.gz"]).
  - discriminate.
  - vm_compute. reflexivity.
Defined.

End AmbiFacts.

(** ** The whole program *)

Module MainFacts.

Import Startup Engine Rows Counting EngineFacts Words Ambi Main Samples MoreSamples Deferred.

(** *** Startup: what a successful startup leaves *)

Lemma startup_ready (fs : FS) (args : Args) (fq : list string)
      (evs : list event) (hs : handles) :
  startup fs args fq = (evs, Ready hs) ->
  fq <> [] /\ (Tab args = false -> length (outputs hs) = length fq).
Proof.
  unfold startup. intros H.
  destruct (String.eqb (ReadsFilename args) ""); [done|].
  destruct (Nat.eqb_spec (length fq) 0); [done|].
  split; [by destruct fq|]. intros Ht. rewrite Ht in H.
  destruct (open_inputs fs fq) as [ev1 [ins|m1]]; [|done].
  destruct (open_outputs fs (OutPrefix args) (length fq) (length fq) 0)
    as [ev2 [outs|m2]] eqn:Eout; [|done].
  apply StartupMore.open_outputs_handles in Eout.
  destruct (open_reads fs args) as [ev3 [rd|m3]]; [|done].
  injection H as _ <-. simpl. subst outs. by rewrite length_map, length_seq.
Qed.

Lemma hd_map_seq {A} (f : nat -> A) (d : A) (n : nat) :
  (0 < n)%nat -> hd d (map f (seq 0 n)) = f 0%nat.
Proof. destruct n; [lia|done]. Qed.

Section Run.

Variable fs : FS.
Variable os : Closer.
Variable wr_ok : nat -> bool.
Variable args : Args.
Variable fq : list string.
Variable names : list string.
Variable content : nat -> list string.

(** X24: [main] ends, one way or another, on every command line, file system
    and input. *)
Theorem main_ends :
  Z.of_nat (length (content 0)) < 2 ^ 63 ->
  exists res, main fs os wr_ok args fq names content = Some res.
Proof.
  intros HL. unfold main.
  destruct (startup fs args fq) as [evs [hs|m]] eqn:Es; [|by eexists].
  destruct (NameIndex.build (ShortName args) names) as [filter|]; [|by eexists].
  apply startup_ready in Es as [Hfq _].
  destruct (filter_streams_counted args filter (outputs hs) wr_ok
              (map content (seq 0 (length fq)))) as (x & st & -> & _).
  - destruct fq; [done|]. done.
  - rewrite hd_map_seq; [done|]. destruct fq; [done|simpl; lia].
  - destruct x; by eexists.
Qed.



End Run.

Lemma main_ends_witness :
  exists res,
    main every_file all_close always_ok out_prefix ["r1.fq"; "r2.fq.gz"] ["a"]
      paired_content
    = Some res.
Proof.
  apply (main_ends every_file all_close always_ok out_prefix ["r1.fq"; "r2.fq.gz"] ["a"]
           paired_content).
  reflexivity.
Defined.



(** *** Opened and closed files *)

Lemma files_opened_app (a b : list event) :
  files_opened (a ++ b) = files_opened a ++ files_opened b.
Proof. unfold files_opened. apply omap_app. Qed.

Lemma files_closed_app (a b : list close_event) :
  files_closed (a ++ b) = files_closed a ++ files_closed b.
Proof. unfold files_closed. apply omap_app. Qed.

Lemma AmbiReader_Open_file (fs : FS) (fn : string) (ev : list event) (h : handle) :
  AmbiReader_Open fs fn = (ev, Some h) -> files_opened ev = file_of h.
Proof.
  unfold AmbiReader_Open. intros H. repeat case_match; simplify_eq; done.
Qed.

Lemma AmbiWriter_Open_file (fs : FS) (fn : string) (ev : list event) (h : handle) :
  AmbiWriter_Open fs fn = (ev, Some h) -> files_opened ev = file_of h.
Proof.
  unfold AmbiWriter_Open. intros H. repeat case_match; simplify_eq; done.
Qed.

Lemma open_inputs_files (fs : FS) (fq : list string) :
  forall (evs : list event) (ins : list handle),
  open_inputs fs fq = (evs, Ready ins) -> files_opened evs = flat_map file_of ins.
Proof.
  induction fq as [|fn rest IH]; simpl; intros evs ins H; [by simplify_eq|].
  destruct (AmbiReader_Open fs fn) as [ev [h|]] eqn:Eo; [|done].
  destruct (open_inputs fs rest) as [evs' [hs|m']] eqn:E; [|done].
  simplify_eq. rewrite files_opened_app. simpl.
  by rewrite (AmbiReader_Open_file _ _ _ _ Eo), (IH _ _ eq_refl).
Qed.

Lemma open_outputs_files (fs : FS) (prefix : string) (nfq n : nat) :
  forall (i : nat) (evs : list event) (outs : list handle),
  open_outputs fs prefix nfq n i = (evs, Ready outs) ->
  files_opened evs = flat_map file_of outs.
Proof.
  induction n as [|n IH]; simpl; intros i evs outs H; [by simplify_eq|].
  destruct (String.eqb prefix "").
  - destruct (open_outputs fs prefix nfq n (S i)) as [evs' [hs|m']] eqn:E; [|done].
    simplify_eq. simpl. by apply IH with (i := S i).
  - destruct (AmbiWriter_Open fs (output_name prefix nfq i)) as [ev [h|]] eqn:Eo; [|done].
    destruct (open_outputs fs prefix nfq n (S i)) as [evs' [hs|m']] eqn:E; [|done].
    simplify_eq. rewrite files_opened_app. simpl.
    by rewrite (AmbiWriter_Open_file _ _ _ _ Eo), (IH _ _ _ E).
Qed.

Lemma open_outputs_std (fs : FS) (nfq n : nat) :
  forall (i : nat) (evs : list event) (outs : list handle),
  open_outputs fs "" nfq n i = (evs, Ready outs) -> flat_map file_of outs = [].
Proof.
  induction n as [|n IH]; simpl; intros i evs outs H; [by simplify_eq|].
  destruct (open_outputs fs "" nfq n (S i)) as [evs' [hs|m']] eqn:E; [|done].
  simplify_eq. simpl. by apply IH with (i := S i) (evs := evs').
Qed.

Lemma startup_files (fs : FS) (args : Args) (fq : list string)
      (evs : list event) (hs : handles) :
  startup fs args fq = (evs, Ready hs) ->
  files_opened evs
  = flat_map file_of (inputs hs) ++ flat_map file_of (outputs hs) ++ file_of (reads hs)
  /\ (String.eqb (OutPrefix args) "" = true -> flat_map file_of (outputs hs) = []).
Proof.
  unfold startup. intros H.
  destruct (String.eqb (ReadsFilename args) ""); [done|].
  destruct (length fq =? 0)%nat; [done|].
  destruct (open_inputs fs fq) as [ev1 [ins|m1]] eqn:Ein; [|done].
  apply open_inputs_files in Ein.
  assert (Hrd : forall ev3 rd, open_reads fs args = (ev3, Ready rd) ->
                               files_opened ev3 = file_of rd).
  { unfold open_reads. intros ev3 rd Hr.
    destruct (AmbiReader_Open fs (readsFn args)) as [ev [h|]] eqn:Eo; [|done].
    simplify_eq. by eapply AmbiReader_Open_file. }
  destruct (Tab args).
  - destruct (negb (String.eqb (OutPrefix args) "")); [done|].
    destruct (open_reads fs args) as [ev3 [rd|m3]] eqn:Er; [|done].
    simplify_eq. simpl. rewrite !files_opened_app, Ein, (Hrd _ _ eq_refl). done.
  - destruct (open_outputs fs (OutPrefix args) (length fq) (length fq) 0)
      as [ev2 [outs|m2]] eqn:Eout; [|done].
    destruct (open_reads fs args) as [ev3 [rd|m3]] eqn:Er; [|done].
    simplify_eq. simpl.
    rewrite !files_opened_app, Ein, (Hrd _ _ eq_refl), (open_outputs_files _ _ _ _ _ _ _ Eout).
    split; [done|]. intros Hp. apply String.eqb_eq in Hp. rewrite Hp in Eout.
    by eapply open_outputs_std.
Qed.

Lemma Close_bound_files (os : Closer) (h : handle) :
  (forall g, gz_close_ok os g = true) ->
  files_closed (Close os (bound h)).1 = file_of h.
Proof.
  intros Hg. destruct h as [|fn|fn]; unfold Close; simpl; [done| |].
  - by destruct (file_close_ok os fn).
  - rewrite Hg. by destruct (file_close_ok os fn).
Qed.

Lemma flat_map_file_of_rev (hs : list handle) :
  flat_map file_of (rev hs) = rev (flat_map file_of hs).
Proof.
  induction hs as [|h hs IH]; [done|]. simpl.
  rewrite flat_map_app, IH, rev_app_distr. simpl. rewrite app_nil_r.
  by destruct h.
Qed.

Lemma files_closed_flat_map (os : Closer) (hs : list handle) :
  (forall g, gz_close_ok os g = true) ->
  files_closed (flat_map (fun h => (Close os (bound h)).1) hs) = flat_map file_of hs.
Proof.
  intros Hg. induction hs as [|h hs IH]; [done|]. simpl.
  by rewrite files_closed_app, IH, Close_bound_files.
Qed.

Lemma deferred_files (os : Closer) (args : Args) (hs : handles) :
  (forall g, gz_close_ok os g = true) ->
  (String.eqb (OutPrefix args) "" = true -> flat_map file_of (outputs hs) = []) ->
  files_closed (deferred os args hs)
  = rev (flat_map file_of (inputs hs) ++ flat_map file_of (outputs hs)
           ++ file_of (reads hs)).
Proof.
  intros Hg Hstd. unfold deferred.
  rewrite !files_closed_app, Close_bound_files, files_closed_flat_map by done.
  rewrite !rev_app_distr, flat_map_file_of_rev, <- app_assoc.
  assert (Hr : rev (file_of (reads hs)) = file_of (reads hs)) by by destruct (reads hs).
  rewrite Hr. f_equal. f_equal.
  destruct (String.eqb (OutPrefix args) "") eqn:Ep.
  - by rewrite (Hstd eq_refl).
  - by rewrite files_closed_flat_map, flat_map_file_of_rev.
Qed.

(** X27: when [main] returns or panics, and no gzip layer refuses to close,
    the deferred calls close every file that startup opened or created,
    once, in the reverse of the order of opening; when [main] ends in
    [log.Fatal], no file is closed: the deferred calls do not run. *)
Theorem closes_mirror_opens (fs : FS) (os : Closer) (wr_ok : nat -> bool) (args : Args)
        (fq names : list string) (content : nat -> list string) (res : result) :
  (forall g, gz_close_ok os g = true) ->
  main fs os wr_ok args fq names content = Some res ->
  match how res with
  | Return _ _ | Panic => files_closed (closed res) = rev (files_opened (opened res))
  | FatalStartup _ | FatalLoop _ => closed res = []
  end.
Proof.
  intros Hg H. unfold main in H.
  destruct (startup fs args fq) as [evs [hs|m]] eqn:Es; [|by simplify_eq].
  apply startup_files in Es as [Hev Hstd].
  pose proof (deferred_files os args hs Hg Hstd) as Hd. rewrite <- Hev in Hd.
  destruct (NameIndex.build (ShortName args) names) as [filter|]; [|by simplify_eq].
  destruct (filter_streams args filter (outputs hs) wr_ok _) as [[x st]|]; [|done].
  destruct x; by simplify_eq.
Qed.

Lemma closes_mirror_opens_witness :
  exists res,
    main every_file all_close always_ok out_prefix ["r1.fq"; "r2.fq.gz"] ["a"]
      paired_content
    = Some res
    /\ match how res with
       | Return _ _ | Panic => files_closed (closed res) = rev (files_opened (opened res))
       | FatalStartup _ | FatalLoop _ => closed res = []
       end.
Proof.
  eexists. split; [vm_compute; reflexivity|].
  apply (closes_mirror_opens every_file all_close always_ok out_prefix
           ["r1.fq"; "r2.fq.gz"] ["a"] paired_content).
  - reflexivity.
  - vm_compute. reflexivity.
Defined.

End MainFacts.

(** ** Outputs, sink by sink *)

Module OutputsFacts.

Import Startup Engine Rows Counting EngineFacts Outputs Samples MoreSamples.

Lemma sent_to_app (w : handle) (a b : list (handle * string)) :
  sent_to w (a ++ b) = sent_to w a ++ sent_to w b.
Proof. unfold sent_to. by rewrite List.filter_app, map_app. Qed.

Lemma sent_to_flat_map {A} (w : handle) (f : A -> list (handle * string)) (l : list A) :
  sent_to w (flat_map f l) = flat_map (fun x => sent_to w (f x)) l.
Proof.
  induction l as [|x l IH]; [done|]. simpl. by rewrite sent_to_app, IH.
Qed.

Lemma sent_to_other (w : handle) (outs : list handle) :
  forall row : list string,
  w ∉ outs -> sent_to w (line_writes outs row) = [].
Proof.
  induction outs as [|o outs IH]; intros row Hw; [done|].
  destruct row as [|l row]; [done|].
  apply not_elem_of_cons in Hw as [Hne Hw].
  unfold sent_to, line_writes. simpl.
  rewrite bool_decide_eq_false_2 by (simpl; congruence).
  by apply IH.
Qed.

(** Of the writes of one line per stream, a sink that belongs to one stream
    only gets the line of that stream. *)
Lemma sent_to_line_writes (w : handle) (outs : list handle) :
  forall (row : list string) (i : nat),
  NoDup outs -> length row = length outs -> outs !! i = Some w ->
  sent_to w (line_writes outs row) = [with_newline (nth i row "")].
Proof.
  induction outs as [|o outs IH]; intros row i Hnd Hlen Hi; [done|].
  destruct row as [|l row]; [done|].
  apply NoDup_cons in Hnd as [Ho Hnd]. simpl in Hlen.
  unfold sent_to, line_writes. simpl.
  destruct i as [|i]; simpl in Hi.
  - simplify_eq. rewrite bool_decide_eq_true_2 by done. simpl. f_equal.
    by apply (sent_to_other w outs row).
  - rewrite bool_decide_eq_false_2.
    + apply (IH row i); [done|lia|done].
    + simpl. intros ->. apply Ho. by eapply list_elem_of_lookup_2.
Qed.

Lemma sent_to_std (n : nat) :
  forall row : list string,
  length row = n ->
  sent_to StdStream (line_writes (replicate n StdStream) row) = map with_newline row.
Proof.
  induction n as [|n IH]; intros row Hlen; destruct row as [|l row]; try done.
  unfold sent_to, line_writes. simpl. f_equal. apply IH. simpl in Hlen. lia.
Qed.

Section Sinks.

Variable args : Args.
Variable filter : gmap string bool.
Variable outputs : list handle.
Variable wr_ok : nat -> bool.
Hypothesis wr_ok_all : forall k, wr_ok k = true.

Lemma whole_records_written (n : nat) (rows : list Row) :
  Forall (fun r => wf_row args (S n) r = true) rows ->
  (Tab args = false -> length outputs = S n) ->
  Limit args <= 0 ->
  4 * Z.of_nat (length rows) < 2 ^ 63 ->
  exists st',
    filter_streams args filter outputs wr_ok (lay rows (replicate (S n) []))
    = Some (ReturnNil, st')
    /\ written st' = flat_map (record_output args filter outputs) rows.
Proof.
  intros Hwf Hout Hlim Hmax.
  destruct (filter_streams_rows args filter outputs wr_ok wr_ok_all n rows
              (replicate (S n) [])) as (en' & nm' & sqs' & ->);
    [done|by rewrite length_replicate|done|done|done|].
  cbn [replicate hd run]. erewrite iteration_eof by done. by eexists.
Qed.



End Sinks.



End OutputsFacts.
